(** * MultiTenantRateLimiter (util/rate_limiter_multi_tenant.cc)

    A shallow embedding of the multi-tenant token-bucket rate limiter and
    the properties of its accounting, queueing and shutdown code.

    Conventions.
    - [int64_t] values are integers in [Z].  Where the source itself guards
      against overflow ([CalculateRefillBytesPerPeriodLocked]) the arithmetic
      is checked: an operation whose mathematical result leaves the int64
      range is undefined behaviour.  The additions to the traffic counters
      [total_requests_] and [total_bytes_through_] and the arithmetic on the
      clock ([next_refill_us_], [time_until_refill_us], [wait_until]), which
      the source does not guard, are 64-bit operations: the result is the
      sum or difference where that is an int64 value and wraps around in
      two's complement where it is not ([Int64.add], [Int64.sub]).
    - A C array is a list indexed by an integer; an index outside the array
      is undefined behaviour ([Undefined]).
    - A [Req] lives on the stack of the calling thread and the queues hold
      pointers to it: the records are kept in a store [reqs] keyed by
      address and the queues are lists of addresses.
    - Signalling a condition variable appends an event to the log [signals].
    - The code of [Request] between two blocking points runs under
      [request_mutex_]; each such stretch is one function on the state. *)

From Stdlib Require Import ZArith Lia List Bool Permutation.
From stdpp Require Import base option list gmap.

Local Open Scope Z_scope.

(** ** Results of code with undefined behaviour *)

Inductive Res (A : Type) : Type :=
| Ok (a : A)
| Undefined.
Arguments Ok {A} a.
Arguments Undefined {A}.

#[global] Instance Res_ret : MRet Res := fun A a => Ok a.
#[global] Instance Res_bind : MBind Res := fun A B f m =>
  match m with
  | Ok a => f a
  | Undefined => Undefined
  end.
#[global] Instance Res_fmap : FMap Res := fun A B f m =>
  match m with
  | Ok a => Ok (f a)
  | Undefined => Undefined
  end.

(** [a[i]] and [a[i] = x] on a C array. *)
Definition arr_get {A : Type} (a : list A) (i : Z) : Res A :=
  if (0 <=? i) && (i <? Z.of_nat (length a))
  then match a !! Z.to_nat i with
       | Some x => Ok x
       | None => Undefined
       end
  else Undefined.

Definition arr_set {A : Type} (a : list A) (i : Z) (x : A) : Res (list A) :=
  if (0 <=? i) && (i <? Z.of_nat (length a))
  then Ok (<[Z.to_nat i := x]> a)
  else Undefined.

(** A loop over a list of indices with the state threaded through. *)
Fixpoint for_each {I S : Type} (body : I -> S -> Res S) (ixs : list I) (s : S)
  : Res S :=
  match ixs with
  | [] => Ok s
  | i :: rest => s' ← body i s; for_each body rest s'
  end.

(** ** int64 arithmetic *)

Module Int64.
Definition max : Z := 9223372036854775807.
Definition min : Z := -9223372036854775808.

Definition fits (z : Z) : bool := (min <=? z) && (z <=? max).

Definition mul (a b : Z) : Res Z :=
  if fits (a * b) then Ok (a * b) else Undefined.

(** C++ division truncates toward zero. *)
Definition div (a b : Z) : Res Z :=
  if b =? 0 then Undefined
  else if fits (Z.quot a b) then Ok (Z.quot a b) else Undefined.

(** The int64 value with the low 64 bits of [z]: [z] less the multiple of
    [2^64] that brings it into the int64 range. *)
Definition wrap (z : Z) : Z := z - 2 ^ 64 * ((z - min) / 2 ^ 64).

(** Unguarded 64-bit addition and subtraction. *)
Definition add (a b : Z) : Z := wrap (a + b).
Definition sub (a b : Z) : Z := wrap (a - b).
End Int64.

(** ** Constants of the headers *)

(** [int client_order[kTGNumClients] = {0, 1, 2, 3, 4}] *)
Definition kTGNumClients : Z := 5.
Definition kMicrosecondsPerSecond : Z := 1000000.

(** [Env::IOPriority] *)
Inductive IOPriority : Type := IO_LOW | IO_MID | IO_HIGH | IO_USER | IO_TOTAL.

Definition pri_ix (p : IOPriority) : Z :=
  match p with
  | IO_LOW => 0
  | IO_MID => 1
  | IO_HIGH => 2
  | IO_USER => 3
  | IO_TOTAL => 4
  end.

(** The values [TG_GetThreadMetadata().client_id] takes for a thread without
    a tenant and for a thread to be ignored. *)
Definition kClientUnset : Z := -1.
Definition kClientInvalid : Z := -2.

(** ** Data *)

(** [struct MultiTenantRateLimiter::Req]; its [cv] is named by the address
    of the record. *)
Record Req : Type := mkReq {
  request_bytes : Z;
  bytes : Z
}.

(** [Req(_bytes, _mu)] *)
Definition Req_new (_bytes : Z) : Req :=
  {| request_bytes := _bytes; bytes := _bytes |}.

Inductive Event : Type :=
| CvSignal (r : nat)       (* r->cv.Signal() *)
| ExitCvSignal             (* exit_cv_.Signal() *)
| DrainTick.               (* RecordTick(stats, NUMBER_RATE_LIMITER_DRAINS) *)

Inductive Status : Type := StatusOK | InvalidArgument.

Record State : Type := mkState {
  refill_period_us_ : Z;
  rate_bytes_per_sec_ : Z;
  refill_bytes_per_period_ : Z;
  raw_single_burst_bytes_ : Z;
  stop_ : bool;
  requests_to_wait_ : Z;
  next_refill_us_ : Z;
  wait_until_refill_pending_ : bool;
  available_bytes_arr_ : list Z;               (* [kTGNumClients] *)
  total_requests_ : list Z;                    (* [Env::IO_TOTAL] *)
  total_bytes_through_ : list Z;               (* [Env::IO_TOTAL] *)
  calls_per_client_ : list Z;                  (* [kTGNumClients] *)
  total_calls_ : Z;
  queue_ : list (list nat);                    (* [Env::IO_TOTAL] *)
  multi_tenant_queue_ : list (list (list nat)); (* [kTGNumClients][IO_TOTAL] *)
  reqs : gmap nat Req;                         (* the Req objects alive *)
  signals : list Event
}.

Definition set_rate (rate refill : Z) (s : State) : State :=
  mkState (refill_period_us_ s) rate refill
    (raw_single_burst_bytes_ s) (stop_ s) (requests_to_wait_ s)
    (next_refill_us_ s) (wait_until_refill_pending_ s)
    (available_bytes_arr_ s) (total_requests_ s) (total_bytes_through_ s)
    (calls_per_client_ s) (total_calls_ s) (queue_ s) (multi_tenant_queue_ s)
    (reqs s) (signals s).

Definition set_raw_single_burst_bytes (n : Z) (s : State) : State :=
  mkState (refill_period_us_ s) (rate_bytes_per_sec_ s)
    (refill_bytes_per_period_ s) n (stop_ s) (requests_to_wait_ s)
    (next_refill_us_ s) (wait_until_refill_pending_ s)
    (available_bytes_arr_ s) (total_requests_ s) (total_bytes_through_ s)
    (calls_per_client_ s) (total_calls_ s) (queue_ s) (multi_tenant_queue_ s)
    (reqs s) (signals s).

Definition set_stop (b : bool) (s : State) : State :=
  mkState (refill_period_us_ s) (rate_bytes_per_sec_ s)
    (refill_bytes_per_period_ s) (raw_single_burst_bytes_ s) b
    (requests_to_wait_ s) (next_refill_us_ s) (wait_until_refill_pending_ s)
    (available_bytes_arr_ s) (total_requests_ s) (total_bytes_through_ s)
    (calls_per_client_ s) (total_calls_ s) (queue_ s) (multi_tenant_queue_ s)
    (reqs s) (signals s).

Definition set_requests_to_wait (n : Z) (s : State) : State :=
  mkState (refill_period_us_ s) (rate_bytes_per_sec_ s)
    (refill_bytes_per_period_ s) (raw_single_burst_bytes_ s) (stop_ s) n
    (next_refill_us_ s) (wait_until_refill_pending_ s)
    (available_bytes_arr_ s) (total_requests_ s) (total_bytes_through_ s)
    (calls_per_client_ s) (total_calls_ s) (queue_ s) (multi_tenant_queue_ s)
    (reqs s) (signals s).

Definition set_next_refill_us (t : Z) (s : State) : State :=
  mkState (refill_period_us_ s) (rate_bytes_per_sec_ s)
    (refill_bytes_per_period_ s) (raw_single_burst_bytes_ s) (stop_ s)
    (requests_to_wait_ s) t (wait_until_refill_pending_ s)
    (available_bytes_arr_ s) (total_requests_ s) (total_bytes_through_ s)
    (calls_per_client_ s) (total_calls_ s) (queue_ s) (multi_tenant_queue_ s)
    (reqs s) (signals s).

Definition set_wait_until_refill_pending (b : bool) (s : State) : State :=
  mkState (refill_period_us_ s) (rate_bytes_per_sec_ s)
    (refill_bytes_per_period_ s) (raw_single_burst_bytes_ s) (stop_ s)
    (requests_to_wait_ s) (next_refill_us_ s) b
    (available_bytes_arr_ s) (total_requests_ s) (total_bytes_through_ s)
    (calls_per_client_ s) (total_calls_ s) (queue_ s) (multi_tenant_queue_ s)
    (reqs s) (signals s).

Definition set_available_bytes_arr (a : list Z) (s : State) : State :=
  mkState (refill_period_us_ s) (rate_bytes_per_sec_ s)
    (refill_bytes_per_period_ s) (raw_single_burst_bytes_ s) (stop_ s)
    (requests_to_wait_ s) (next_refill_us_ s) (wait_until_refill_pending_ s)
    a (total_requests_ s) (total_bytes_through_ s)
    (calls_per_client_ s) (total_calls_ s) (queue_ s) (multi_tenant_queue_ s)
    (reqs s) (signals s).

Definition set_total_requests (a : list Z) (s : State) : State :=
  mkState (refill_period_us_ s) (rate_bytes_per_sec_ s)
    (refill_bytes_per_period_ s) (raw_single_burst_bytes_ s) (stop_ s)
    (requests_to_wait_ s) (next_refill_us_ s) (wait_until_refill_pending_ s)
    (available_bytes_arr_ s) a (total_bytes_through_ s)
    (calls_per_client_ s) (total_calls_ s) (queue_ s) (multi_tenant_queue_ s)
    (reqs s) (signals s).

Definition set_total_bytes_through (a : list Z) (s : State) : State :=
  mkState (refill_period_us_ s) (rate_bytes_per_sec_ s)
    (refill_bytes_per_period_ s) (raw_single_burst_bytes_ s) (stop_ s)
    (requests_to_wait_ s) (next_refill_us_ s) (wait_until_refill_pending_ s)
    (available_bytes_arr_ s) (total_requests_ s) a
    (calls_per_client_ s) (total_calls_ s) (queue_ s) (multi_tenant_queue_ s)
    (reqs s) (signals s).

Definition set_calls (a : list Z) (n : Z) (s : State) : State :=
  mkState (refill_period_us_ s) (rate_bytes_per_sec_ s)
    (refill_bytes_per_period_ s) (raw_single_burst_bytes_ s) (stop_ s)
    (requests_to_wait_ s) (next_refill_us_ s) (wait_until_refill_pending_ s)
    (available_bytes_arr_ s) (total_requests_ s) (total_bytes_through_ s)
    a n (queue_ s) (multi_tenant_queue_ s)
    (reqs s) (signals s).

Definition set_multi_tenant_queue (q : list (list (list nat))) (s : State)
  : State :=
  mkState (refill_period_us_ s) (rate_bytes_per_sec_ s)
    (refill_bytes_per_period_ s) (raw_single_burst_bytes_ s) (stop_ s)
    (requests_to_wait_ s) (next_refill_us_ s) (wait_until_refill_pending_ s)
    (available_bytes_arr_ s) (total_requests_ s) (total_bytes_through_ s)
    (calls_per_client_ s) (total_calls_ s) (queue_ s) q
    (reqs s) (signals s).

Definition set_reqs (h : gmap nat Req) (s : State) : State :=
  mkState (refill_period_us_ s) (rate_bytes_per_sec_ s)
    (refill_bytes_per_period_ s) (raw_single_burst_bytes_ s) (stop_ s)
    (requests_to_wait_ s) (next_refill_us_ s) (wait_until_refill_pending_ s)
    (available_bytes_arr_ s) (total_requests_ s) (total_bytes_through_ s)
    (calls_per_client_ s) (total_calls_ s) (queue_ s) (multi_tenant_queue_ s)
    h (signals s).

Definition emit (e : Event) (s : State) : State :=
  mkState (refill_period_us_ s) (rate_bytes_per_sec_ s)
    (refill_bytes_per_period_ s) (raw_single_burst_bytes_ s) (stop_ s)
    (requests_to_wait_ s) (next_refill_us_ s) (wait_until_refill_pending_ s)
    (available_bytes_arr_ s) (total_requests_ s) (total_bytes_through_ s)
    (calls_per_client_ s) (total_calls_ s) (queue_ s) (multi_tenant_queue_ s)
    (reqs s) (signals s ++ [e]).

(** ** Rate and burst *)

(** [CalculateRefillBytesPerPeriodLocked] *)
Definition CalculateRefillBytesPerPeriodLocked
    (refill_period_us rate_bytes_per_sec : Z) : Res Z :=
  q ← Int64.div Int64.max rate_bytes_per_sec;
  if q <? refill_period_us
  then Int64.div Int64.max kMicrosecondsPerSecond
  else p ← Int64.mul rate_bytes_per_sec refill_period_us;
       Int64.div p kMicrosecondsPerSecond.

(** [SetBytesPerSecondLocked], called by [SetBytesPerSecond] under the
    mutex. *)
Definition SetBytesPerSecond (bytes_per_second : Z) (s : State) : Res State :=
  refill ← CalculateRefillBytesPerPeriodLocked (refill_period_us_ s)
             bytes_per_second;
  Ok (set_rate bytes_per_second refill s).

(** [SetSingleBurstBytes] *)
Definition SetSingleBurstBytes (single_burst_bytes : Z) (s : State)
  : Status * State :=
  if single_burst_bytes <? 0
  then (InvalidArgument, s)
  else (StatusOK, set_raw_single_burst_bytes single_burst_bytes s).

(** The constructor, without the inner read limiter: every counter and every
    bucket is zero and every queue is empty. *)
Definition MultiTenantRateLimiter_new
    (rate_bytes_per_sec refill_period_us : Z) (auto_tuned : bool)
    (single_burst_bytes now : Z) : Res State :=
  rate ← (if auto_tuned then Int64.div rate_bytes_per_sec 2
          else Ok rate_bytes_per_sec);
  refill ← CalculateRefillBytesPerPeriodLocked refill_period_us rate;
  Ok (mkState refill_period_us rate refill single_burst_bytes false 0 now
        false
        (replicate (Z.to_nat kTGNumClients) 0)
        (replicate 4 0) (replicate 4 0)
        (replicate (Z.to_nat kTGNumClients) 0) 0
        (replicate 4 [])
        (replicate (Z.to_nat kTGNumClients) (replicate 4 []))
        ∅ []).

(** ** Queues and request records *)

(** [multi_tenant_queue_[c][j]] *)
Definition mtq_get (s : State) (c j : Z) : Res (list nat) :=
  row ← arr_get (multi_tenant_queue_ s) c;
  arr_get row j.

Definition mtq_set (c j : Z) (q : list nat) (s : State) : Res State :=
  row ← arr_get (multi_tenant_queue_ s) c;
  row' ← arr_set row j q;
  m ← arr_set (multi_tenant_queue_ s) c row';
  Ok (set_multi_tenant_queue m s).

(** Dereferencing a [Req*]; a pointer to no live record is undefined. *)
Definition req_get (s : State) (p : nat) : Res Req :=
  match reqs s !! p with
  | Some r => Ok r
  | None => Undefined
  end.

(** [p->request_bytes = n] *)
Definition req_set_request_bytes (p : nat) (n : Z) (s : State) : Res State :=
  r ← req_get s p;
  Ok (set_reqs (<[p := mkReq n (bytes r)]> (reqs s)) s).

(** [p->cv.Signal()] *)
Definition cv_signal (p : nat) (s : State) : Res State :=
  _ ← req_get s p;
  Ok (emit (CvSignal p) s).

(** [for (int j = Env::IO_TOTAL - 1; j >= Env::IO_LOW; --j)] *)
Definition priorities_downward : list Z :=
  reverse (seqZ (pri_ix IO_LOW) (pri_ix IO_TOTAL - pri_ix IO_LOW)).

(** [for (int i = 0; i < kTGNumClients; ++i)] *)
Definition clients_upward : list Z := seqZ 0 kTGNumClients.

(** ** Request: from the call to the enqueue *)

Inductive Entered : Type :=
| Returned      (* the call has returned *)
| Enqueued.     (* the record is queued; the coordinator loop follows *)

(** [Request(bytes, pri, stats)] up to the [do] loop.  [tm_client_id] is
    [TG_GetThreadMetadata().client_id] and [req] the address of the local
    [Req req].  [assert(bytes <= GetSingleBurstBytes())] is a precondition
    of the caller; the lines written to [std::cout] are not part of the
    state. *)
Definition Request_enter (tm_client_id bytes : Z) (pri : IOPriority)
    (req : nat) (s : State) : Res (Entered * State) :=
  if tm_client_id =? -2 then Ok (Returned, s) else
  let client_id := tm_client_id in
  let client_id := if tm_client_id =? -1 then 1 else client_id in
  (* calls_per_client_[thread_metadata.client_id]++ *)
  calls ← arr_get (calls_per_client_ s) tm_client_id;
  calls_arr ← arr_set (calls_per_client_ s) tm_client_id (calls + 1);
  (* if (total_calls_++ >= 1000) total_calls_ = 0 *)
  let s := set_calls calls_arr
             (if 1000 <=? total_calls_ s then 0 else total_calls_ s + 1) s in
  let bytes := Z.max 0 bytes in
  if stop_ s then Ok (Returned, s) else
  (* ++total_requests_[pri] *)
  n ← arr_get (total_requests_ s) (pri_ix pri);
  tr ← arr_set (total_requests_ s) (pri_ix pri) (Int64.add n 1);
  let s := set_total_requests tr s in
  (* draw from the per-client token bucket *)
  avail ← arr_get (available_bytes_arr_ s) client_id;
  '(bytes, s) ←
    (if 0 <? avail then
       let bytes_through := Z.min avail bytes in
       t ← arr_get (total_bytes_through_ s) (pri_ix pri);
       tbt ← arr_set (total_bytes_through_ s) (pri_ix pri)
               (Int64.add t bytes_through);
       let s := set_total_bytes_through tbt s in
       av ← arr_set (available_bytes_arr_ s) client_id (avail - bytes_through);
       let s := set_available_bytes_arr av s in
       Ok (bytes - bytes_through, s)
     else Ok (bytes, s));
  if bytes =? 0 then Ok (Returned, s) else
  (* Req req(bytes, &request_mutex_); queue.push_back(&req) *)
  let s := set_reqs (<[req := Req_new bytes]> (reqs s)) s in
  q ← mtq_get s client_id (pri_ix pri);
  s ← mtq_set client_id (pri_ix pri) (q ++ [req]) s;
  Ok (Enqueued, s).

(** ** Refill and grant *)

(** The branch of the loop body taken when
    [available_bytes_arr_[i] < next_req->request_bytes], with [r] the record
    at [next_req] and [avail] the bucket: the record gets what is left of the
    bucket and stays queued. *)
Definition grant_partially (i : Z) (next_req : nat) (r : Req) (avail : Z)
    (s : State) : Res State :=
  s ← req_set_request_bytes next_req (request_bytes r - avail) s;
  av ← arr_set (available_bytes_arr_ s) i 0;
  Ok (set_available_bytes_arr av s).

(** The rest of the loop body: the record is granted, popped from
    [multi_tenant_queue_[c][j]] (whose tail is [rest]) and signalled. *)
Definition grant_fully (i c j : Z) (next_req : nat) (rest : list nat)
    (r : Req) (avail : Z) (s : State) : Res State :=
  av ← arr_set (available_bytes_arr_ s) i (avail - request_bytes r);
  let s := set_available_bytes_arr av s in
  s ← req_set_request_bytes next_req 0 s;
  r ← req_get s next_req;
  t ← arr_get (total_bytes_through_ s) j;
  tbt ← arr_set (total_bytes_through_ s) j (Int64.add t (bytes r));
  let s := set_total_bytes_through tbt s in
  s ← mtq_set c j rest s;
  cv_signal next_req s.

(** The [while (!queue->empty())] loop on [multi_tenant_queue_[c][j]], whose
    content is [q]; [i] is the loop index of the enclosing client loop. *)
Fixpoint grant_queue (i c j : Z) (q : list nat) (s : State) : Res State :=
  match q with
  | [] => Ok s
  | next_req :: rest =>
      r ← req_get s next_req;
      avail ← arr_get (available_bytes_arr_ s) i;
      if avail <? request_bytes r
      then grant_partially i next_req r avail s      (* ... break *)
      else s ← grant_fully i c j next_req rest r avail s;
           grant_queue i c j rest s
  end.

(** The body of the client loop: the priorities of
    [multi_tenant_queue_[client_order[i]]], highest first. *)
Definition grant_client (client_order : list Z) (i : Z) (s : State)
  : Res State :=
  for_each (fun j s =>
              c ← arr_get client_order i;
              q ← mtq_get s c j;
              grant_queue i c j q s)
           priorities_downward s.

(** [RefillBytesAndGrantRequestsLocked].  [now] is what
    [NowMicrosMonotonicLocked()] returns and [client_order] the array after
    [std::random_shuffle]. *)
Definition RefillBytesAndGrantRequestsLocked (now : Z) (client_order : list Z)
    (s : State) : Res State :=
  let s := set_next_refill_us (Int64.add now (refill_period_us_ s)) s in
  let refill_bytes_per_period := refill_bytes_per_period_ s in
  s ← for_each (fun i s =>
                  av ← arr_set (available_bytes_arr_ s) i
                         refill_bytes_per_period;
                  Ok (set_available_bytes_arr av s))
               clients_upward s;
  for_each (grant_client client_order) clients_upward s.

(** ** Request: the coordinator loop *)

(** The inner loop of the hand-off: the first non-empty queue of the row,
    from the highest priority, has its front signalled; then [break]. *)
Fixpoint signal_front_of_client (row : list (list nat)) (js : list Z)
    (s : State) : Res State :=
  match js with
  | [] => Ok s
  | j :: js' =>
      queue ← arr_get row j;
      match queue with
      | [] => signal_front_of_client row js' s
      | front :: _ => cv_signal front s
      end
  end.

(** The hand-off after the caller's record was granted. *)
Definition signal_front_requests (s : State) : Res State :=
  for_each (fun i s =>
              row ← arr_get (multi_tenant_queue_ s) i;
              signal_front_of_client row priorities_downward s)
           clients_upward s.

Inductive Duty : Type :=
| WaitOnCv                      (* req.cv.Wait() *)
| TimedWaitOnCv (wait_until : Z) (* clock_->TimedWait(&req.cv, wait_until) *)
| Refilled.                     (* RefillBytesAndGrantRequestsLocked() *)

(** The first half of an iteration, up to the wait or through the refill. *)
Definition Request_duty (now_mono now_clock : Z) (client_order : list Z)
    (s : State) : Res (Duty * State) :=
  let time_until_refill_us := Int64.sub (next_refill_us_ s) now_mono in
  if 0 <? time_until_refill_us then
    if wait_until_refill_pending_ s then Ok (WaitOnCv, s)
    else
      let wait_until := Int64.add now_clock time_until_refill_us in
      Ok (TimedWaitOnCv wait_until,
          set_wait_until_refill_pending true (emit DrainTick s))
  else
    s ← RefillBytesAndGrantRequestsLocked now_mono client_order s;
    Ok (Refilled, s).

(** After [TimedWait] returns. *)
Definition Request_timed_wait_done (s : State) : State :=
  set_wait_until_refill_pending false s.

(** The second half of an iteration: [if (req.request_bytes == 0)] hand off;
    the result tells whether the loop runs again
    ([!stop_ && req.request_bytes > 0]). *)
Definition Request_iteration_end (req : nat) (s : State)
  : Res (bool * State) :=
  r ← req_get s req;
  s ← (if request_bytes r =? 0 then signal_front_requests s else Ok s);
  r ← req_get s req;
  Ok (negb (stop_ s) && (0 <? request_bytes r), s).

(** After the loop: [if (stop_) { --requests_to_wait_; exit_cv_.Signal(); }]
    and the record leaves scope. *)
Definition Request_leave (req : nat) (s : State) : State :=
  let s := if stop_ s
           then emit ExitCvSignal
                  (set_requests_to_wait (requests_to_wait_ s - 1) s)
           else s in
  set_reqs (delete req (reqs s)) s.

(** ** Destructor *)

(** [~MultiTenantRateLimiter] up to its wait loop. *)
Definition Destructor_enter (s : State) : Res State :=
  let s := set_stop true s in
  queues_size_sum ←
    for_each (fun i sum =>
                q ← arr_get (queue_ s) i;
                Ok (sum + Z.of_nat (length q)))
             (seqZ (pri_ix IO_LOW) (pri_ix IO_TOTAL - pri_ix IO_LOW)) 0;
  let s := set_requests_to_wait queues_size_sum s in
  for_each (fun i s =>
              queue ← arr_get (queue_ s) i;
              for_each cv_signal queue s)
           priorities_downward s.

(** [while (requests_to_wait_ > 0) exit_cv_.Wait()]: the destructor blocks
    exactly when this holds. *)
Definition Destructor_waits (s : State) : bool := 0 <? requests_to_wait_ s.

(** ** Public operations and what they return *)

Inductive Op : Type :=
| OpRequest (tm_client_id bytes : Z) (pri : IOPriority) (req : nat)
| OpSetBytesPerSecond (bytes_per_second : Z)
| OpSetSingleBurstBytes (single_burst_bytes : Z)
| OpDestructor.

Inductive Ret : Type :=
| RetVoid
| RetStatus (st : Status).

(** One call of a public operation, up to its return or its first wait. *)
Definition call (op : Op) (s : State) : Res (Ret * State) :=
  match op with
  | OpRequest tm_client_id bytes pri req =>
      '(_, s') ← Request_enter tm_client_id bytes pri req s;
      Ok (RetVoid, s')
  | OpSetBytesPerSecond n =>
      s' ← SetBytesPerSecond n s; Ok (RetVoid, s')
  | OpSetSingleBurstBytes n =>
      let '(st, s') := SetSingleBurstBytes n s in Ok (RetStatus st, s')
  | OpDestructor =>
      s' ← Destructor_enter s; Ok (RetVoid, s')
  end.

(** ** Observations *)

(** The content of the queue [m[c][j]] of a queue matrix, and of
    [multi_tenant_queue_[c][j]]. *)
Definition queue_in (m : list (list (list nat))) (c j : Z) : list nat :=
  match row ← arr_get m c; arr_get row j with
  | Ok q => q
  | Undefined => []
  end.

Definition queue_at (s : State) (c j : Z) : list nat :=
  queue_in (multi_tenant_queue_ s) c j.

Definition mtq_shape (m : list (list (list nat))) : Prop :=
  length m = 5%nat /\ Forall (fun row => length row = 4%nat) m.

(** The immutable [bytes] field of the record at [p]. *)
Definition bytes_of (s : State) (p : nat) : Z :=
  match reqs s !! p with
  | Some r => bytes r
  | None => 0
  end.

Fixpoint sumZ {A : Type} (f : A -> Z) (l : list A) : Z :=
  match l with
  | [] => 0
  | x :: l' => f x + sumZ f l'
  end.

(** The bytes that queued records of priority [j] will add to
    [total_bytes_through_[j]] when they are granted. *)
Definition pending_bytes (s : State) (j : Z) : Z :=
  sumZ (fun c => sumZ (bytes_of s) (queue_at s c j)) clients_upward.

Definition bytes_through (s : State) (j : Z) : Z :=
  match arr_get (total_bytes_through_ s) j with
  | Ok t => t
  | Undefined => 0
  end.

(** Bytes of priority [j] counted or still to be counted: what
    [total_bytes_through_[j]] reads once the records queued at priority [j]
    have been granted. *)
Definition ledger (s : State) (j : Z) : Z :=
  Int64.add (bytes_through s j) (pending_bytes s j).

(** Shape of the arrays, and every queued pointer is a live record. *)
Record wf (s : State) : Prop := mk_wf {
  wf_available : length (available_bytes_arr_ s) = 5%nat;
  wf_total_requests : length (total_requests_ s) = 4%nat;
  wf_total_bytes_through : length (total_bytes_through_ s) = 4%nat;
  wf_calls_per_client : length (calls_per_client_ s) = 5%nat;
  wf_queue : length (queue_ s) = 4%nat;
  wf_mtq : length (multi_tenant_queue_ s) = 5%nat;
  wf_rows : Forall (fun row => length row = 4%nat) (multi_tenant_queue_ s);
  wf_live : forall c j p, p ∈ queue_at s c j -> is_Some (reqs s !! p)
}.

(** What a turn of the grant loop on [multi_tenant_queue_[c][j]] with the
    bucket [i] does: [g] are the records granted, in the order granted. *)
Record queue_turn (i c j : Z) (s s' : State) (g : list nat) : Prop := {
  qt_wf : wf s';
  qt_queue : queue_at s c j = g ++ queue_at s' c j;
  qt_other : forall c' j', (c', j') <> (c, j) ->
               queue_at s' c' j' = queue_at s c' j';
  qt_signals : signals s' = signals s ++ (CvSignal <$> g);
  qt_bytes : forall p, bytes_of s' p = bytes_of s p;
  qt_through : bytes_through s' j
               = foldl (fun t p => Int64.add t (bytes_of s p))
                   (bytes_through s j) g;
  qt_through_other : forall j', j' <> j ->
                       bytes_through s' j' = bytes_through s j';
  qt_front : forall p rest, queue_at s' c j = p :: rest ->
               arr_get (available_bytes_arr_ s') i = Ok 0
               /\ exists r, reqs s' !! p = Some r /\ 0 < request_bytes r;
  qt_legacy : queue_ s' = queue_ s;
  qt_refill : refill_bytes_per_period_ s' = refill_bytes_per_period_ s;
  qt_buckets : forall i', i' <> i ->
                 arr_get (available_bytes_arr_ s') i'
                 = arr_get (available_bytes_arr_ s) i'
}.

(** The state of a refill when its grant loop starts: the next refill is
    set and every bucket holds [refill_bytes_per_period_]. *)
Definition refill_start (now : Z) (s : State) : State :=
  set_available_bytes_arr (replicate 5 (refill_bytes_per_period_ s))
    (set_next_refill_us (Int64.add now (refill_period_us_ s)) s).

(** What the pass of the grant loop at position [i] of the order does: the
    queues of the tenant [client_order[i]] have their turns from [IO_USER]
    down to [IO_LOW], each turn on the state the turn before it left. *)
Definition tenant_pass (client_order : list Z) (i : Z) (s s' : State)
  : Prop :=
  exists c sU sH sM gU gH gM gL,
    arr_get client_order i = Ok c
    /\ grant_queue i c (pri_ix IO_USER) (queue_at s c (pri_ix IO_USER)) s
       = Ok sU
    /\ grant_queue i c (pri_ix IO_HIGH) (queue_at sU c (pri_ix IO_HIGH)) sU
       = Ok sH
    /\ grant_queue i c (pri_ix IO_MID) (queue_at sH c (pri_ix IO_MID)) sH
       = Ok sM
    /\ grant_queue i c (pri_ix IO_LOW) (queue_at sM c (pri_ix IO_LOW)) sM
       = Ok s'
    /\ grant_client client_order i s = Ok s'
    /\ queue_turn i c (pri_ix IO_USER) s sU gU
    /\ queue_turn i c (pri_ix IO_HIGH) sU sH gH
    /\ queue_turn i c (pri_ix IO_MID) sH sM gM
    /\ queue_turn i c (pri_ix IO_LOW) sM s' gL
    /\ signals s' = signals s ++ (CvSignal <$> (gU ++ gH ++ gM ++ gL))
    /\ queue_at s c (pri_ix IO_USER) = gU ++ queue_at s' c (pri_ix IO_USER)
    /\ queue_at s c (pri_ix IO_HIGH) = gH ++ queue_at s' c (pri_ix IO_HIGH)
    /\ queue_at s c (pri_ix IO_MID) = gM ++ queue_at s' c (pri_ix IO_MID)
    /\ queue_at s c (pri_ix IO_LOW) = gL ++ queue_at s' c (pri_ix IO_LOW).

(** The accounts of the traffic are as they were: every ledger, the [bytes]
    field of every record, the legacy queues and the refill size. *)
Definition accounts_kept (s s' : State) : Prop :=
  (forall j, ledger s' j = ledger s j)
  /\ (forall p, bytes_of s' p = bytes_of s p)
  /\ queue_ s' = queue_ s
  /\ refill_bytes_per_period_ s' = refill_bytes_per_period_ s.

(** The record the hand-off signals for one tenant: the front of its first
    non-empty queue from the highest priority down, if it has one. *)
Fixpoint first_front (row : list (list nat)) (js : list Z) : option nat :=
  match js with
  | [] => None
  | j :: js' =>
      match arr_get row j with
      | Ok (front :: _) => Some front
      | Ok [] => first_front row js'
      | Undefined => None
      end
  end.

Definition handoff_front (s : State) (c : Z) : option nat :=
  match arr_get (multi_tenant_queue_ s) c with
  | Ok row => first_front row priorities_downward
  | Undefined => None
  end.

(** The state with the events [es] appended to the log. *)
Definition emit_all (es : list Event) (s : State) : State :=
  mkState (refill_period_us_ s) (rate_bytes_per_sec_ s)
    (refill_bytes_per_period_ s) (raw_single_burst_bytes_ s) (stop_ s)
    (requests_to_wait_ s) (next_refill_us_ s) (wait_until_refill_pending_ s)
    (available_bytes_arr_ s) (total_requests_ s) (total_bytes_through_ s)
    (calls_per_client_ s) (total_calls_ s) (queue_ s) (multi_tenant_queue_ s)
    (reqs s) (signals s ++ es).

(** [wf] as a check that runs. *)
Definition wf_check (s : State) : bool :=
  Nat.eqb (length (available_bytes_arr_ s)) 5
  && Nat.eqb (length (total_requests_ s)) 4
  && Nat.eqb (length (total_bytes_through_ s)) 4
  && Nat.eqb (length (calls_per_client_ s)) 5
  && Nat.eqb (length (queue_ s)) 4
  && Nat.eqb (length (multi_tenant_queue_ s)) 5
  && forallb (fun row => Nat.eqb (length row) 4) (multi_tenant_queue_ s)
  && forallb
       (fun row =>
          forallb
            (fun q =>
               forallb (fun p => match reqs s !! p with
                                 | Some _ => true
                                 | None => false
                                 end) q)
            row)
       (multi_tenant_queue_ s).

(** ** Scenarios *)

(** A limiter at 10 MB/s with a refill period of 100 ms. *)
Definition limiter_10MBps : State :=
  mkState 100000 10000000 1000000 0 false 0 0 false
    [0; 0; 0; 0; 0] [0; 0; 0; 0] [0; 0; 0; 0] [0; 0; 0; 0; 0] 0
    [[]; []; []; []]
    (replicate 5 [[]; []; []; []]) ∅ [].

(** The same limiter in the middle of a period, every bucket full. *)
Definition limiter_refilled : State :=
  mkState 100000 10000000 1000000 0 false 0 100000 false
    [1000000; 1000000; 1000000; 1000000; 1000000]
    [0; 0; 0; 0] [0; 0; 0; 0] [0; 0; 0; 0; 0] 0
    [[]; []; []; []]
    (replicate 5 [[]; []; []; []]) ∅ [].

(** Three requests of tenant 3 queued behind an empty bucket, entered in the
    order LOW, USER, MID. *)
Definition tenant3_backlog : State :=
  mkState 100000 10000000 1000000 0 false 0 100000 false
    [0; 0; 0; 0; 0]
    [1; 1; 0; 1] [0; 0; 0; 0] [0; 0; 0; 3; 0] 3
    [[]; []; []; []]
    [[[]; []; []; []]; [[]; []; []; []]; [[]; []; []; []];
     [[1%nat]; [3%nat]; []; [2%nat]]; [[]; []; []; []]]
    (<[3%nat := Req_new 500000]>
       (<[2%nat := Req_new 500000]> (<[1%nat := Req_new 500000]> ∅)))
    [].

Definition identity_order : list Z := [0; 1; 2; 3; 4].

(** The thread of tenant 1 asks for 600 bytes of a new limiter at time 0: its
    bucket is empty, the record is queued, the refill is due and the thread
    performs it; the shuffle has put tenant 1 first. *)
Definition first_request_of_tenant_1 : Res (Duty * State) :=
  '(_, s) ← Request_enter 1 600 IO_USER 7 limiter_10MBps;
  Request_duty 0 0 [1; 0; 2; 3; 4] s.

(** Tenant 0 uses up its bucket; two further requests of tenant 0 are
    queued, one waiting for the refill and one waiting to be signalled; then
    the limiter is destroyed. *)
Definition requests_pending_at_shutdown : Res State :=
  '(_, s) ← Request_enter 0 1000000 IO_USER 1 limiter_10MBps;
  '(_, s) ← Request_duty 0 0 identity_order s;
  '(_, s) ← Request_iteration_end 1 s;
  let s := Request_leave 1 s in
  '(_, s) ← Request_enter 0 500 IO_USER 2 s;
  '(_, s) ← Request_duty 10 10 identity_order s;
  '(_, s) ← Request_enter 0 700 IO_LOW 3 s;
  '(_, s) ← Request_duty 20 20 identity_order s;
  Ok s.

Definition shutdown_with_pending : Res State :=
  s ← requests_pending_at_shutdown; Destructor_enter s.

(** Tenants 0, 1 and 2 use up their buckets.  The thread of record 4
    (tenant 0) waits for the refill; records 5 and 7 of tenant 1 and 6 and 8
    of tenant 2 wait to be signalled.  At the refill the thread of record 4
    grants 4, 5 and 6 in full and 7 and 8 in part. *)
Definition handoff_after_refill : Res State :=
  '(_, s) ← Request_enter 0 1000000 IO_USER 1 limiter_10MBps;
  '(_, s) ← Request_duty 0 0 identity_order s;
  '(_, s) ← Request_iteration_end 1 s;
  let s := Request_leave 1 s in
  '(_, s) ← Request_enter 1 1000000 IO_USER 2 s;
  '(_, s) ← Request_enter 2 1000000 IO_USER 3 s;
  '(_, s) ← Request_enter 0 500 IO_USER 4 s;
  '(_, s) ← Request_duty 10 10 identity_order s;
  '(_, s) ← Request_enter 1 500 IO_LOW 5 s;
  '(_, s) ← Request_duty 20 20 identity_order s;
  '(_, s) ← Request_enter 2 500 IO_LOW 6 s;
  '(_, s) ← Request_duty 30 30 identity_order s;
  '(_, s) ← Request_enter 1 1000000 IO_LOW 7 s;
  '(_, s) ← Request_duty 40 40 identity_order s;
  '(_, s) ← Request_enter 2 1000000 IO_LOW 8 s;
  '(_, s) ← Request_duty 50 50 identity_order s;
  let s := Request_timed_wait_done s in
  '(_, s) ← Request_iteration_end 4 s;
  '(_, s) ← Request_duty 100000 100000 identity_order s;
  Ok s.

(** The events a step appends to the log. *)
Definition new_signals (before after : State) : list Event :=
  drop (length (signals before)) (signals after).

(** ** The priority order of the single-bucket refill *)

#[global] Instance IOPriority_eq_dec : EqDecision IOPriority.
Proof. solve_decision. Defined.

(** [GeneratePriorityIterationOrderLocked].  The two arguments are what the
    two calls of [rnd_.OneIn(fairness_)] return. *)
Definition GeneratePriorityIterationOrderLocked
    (high_pri_iterated_after_mid_low_pri mid_pri_itereated_after_low_pri : bool)
  : list IOPriority :=
  (* std::vector<Env::IOPriority> pri_iteration_order(Env::IO_TOTAL) *)
  let order := replicate 4 IO_LOW in
  let order := <[0%nat := IO_USER]> order in
  if high_pri_iterated_after_mid_low_pri then
    let order := <[3%nat := IO_HIGH]> order in
    let order :=
      <[2%nat := if mid_pri_itereated_after_low_pri then IO_MID else IO_LOW]>
        order in
    <[1%nat := if decide (order !! 2%nat = Some IO_MID) then IO_LOW
               else IO_MID]> order
  else
    let order := <[1%nat := IO_HIGH]> order in
    let order :=
      <[3%nat := if mid_pri_itereated_after_low_pri then IO_MID else IO_LOW]>
        order in
    <[2%nat := if decide (order !! 3%nat = Some IO_MID) then IO_LOW
               else IO_MID]> order.

(** The place of a priority in an iteration order. *)
Fixpoint place_of (p : IOPriority) (order : list IOPriority) : option nat :=
  match order with
  | [] => None
  | x :: rest => if decide (x = p) then Some 0%nat
                 else S <$> place_of p rest
  end.

(** ** Observations on buckets and demand *)

(** The outstanding demand [request_bytes] of the record at [p]. *)
Definition demand_of (s : State) (p : nat) : Z :=
  match reqs s !! p with
  | Some r => request_bytes r
  | None => 0
  end.

(** The content of [available_bytes_arr_[i]]. *)
Definition bucket (s : State) (i : Z) : Z :=
  match arr_get (available_bytes_arr_ s) i with
  | Ok a => a
  | Undefined => 0
  end.

(** The fields that neither a request nor a refill writes. *)
Definition control (s : State)
  : Z * Z * Z * Z * bool * Z * list (list nat) :=
  (refill_period_us_ s, rate_bytes_per_sec_ s, refill_bytes_per_period_ s,
   raw_single_burst_bytes_ s, stop_ s, requests_to_wait_ s, queue_ s).

(** ** The states of a running limiter *)

(** What holds of the limiter whenever the mutex is free and the destructor
    has not been called.  The last four components are the invariant the
    source states after the coordinator loop: a request that is not granted
    is in one queue, a granted request is in none. *)
Record Inv (s : State) : Prop := mk_Inv {
  inv_wf : wf s;
  inv_period : 0 < refill_period_us_ s <= Int64.max;
  inv_rate : 0 < rate_bytes_per_sec_ s <= Int64.max;
  inv_refill :
    CalculateRefillBytesPerPeriodLocked (refill_period_us_ s)
      (rate_bytes_per_sec_ s) = Ok (refill_bytes_per_period_ s);
  inv_buckets : forall i, 0 <= bucket s i;
  inv_legacy : queue_ s = [[]; []; []; []];
  inv_running : stop_ s = false /\ requests_to_wait_ s = 0;
  inv_nodup : forall c j, NoDup (queue_at s c j);
  inv_once : forall c j c' j' p,
               p ∈ queue_at s c j -> p ∈ queue_at s c' j' ->
               c = c' /\ j = j';
  inv_queued : forall c j p, p ∈ queue_at s c j -> 0 < demand_of s p;
  inv_pending : forall p r, reqs s !! p = Some r ->
                  0 <= request_bytes r
                  /\ (0 < request_bytes r -> exists c j, p ∈ queue_at s c j)
}.

(** One stretch of code run under the mutex by some thread. *)
Inductive step (s : State) : State -> Prop :=
| step_enter (tm_client_id bytes : Z) (pri : IOPriority) (req : nat)
    (e : Entered) (s' : State) :
    0 <= tm_client_id < kTGNumClients \/ tm_client_id = kClientInvalid ->
    pri <> IO_TOTAL ->
    reqs s !! req = None ->
    Request_enter tm_client_id bytes pri req s = Ok (e, s') ->
    step s s'
| step_duty (now_mono now_clock : Z) (client_order : list Z) (d : Duty)
    (s' : State) :
    Permutation client_order clients_upward ->
    Request_duty now_mono now_clock client_order s = Ok (d, s') ->
    step s s'
| step_timed_wait_done :
    step s (Request_timed_wait_done s)
| step_iteration_end (req : nat) (again : bool) (s' : State) :
    Request_iteration_end req s = Ok (again, s') ->
    step s s'
| step_leave (req : nat) (r : Req) :
    reqs s !! req = Some r -> request_bytes r = 0 ->
    step s (Request_leave req s)
| step_set_rate (bytes_per_second : Z) (s' : State) :
    0 < bytes_per_second <= Int64.max ->
    SetBytesPerSecond bytes_per_second s = Ok s' ->
    step s s'
| step_set_burst (single_burst_bytes : Z) :
    step s (snd (SetSingleBurstBytes single_burst_bytes s)).

(** The states a limiter goes through from its construction on, as long as
    the destructor has not been called. *)
Inductive reachable : State -> Prop :=
| reachable_new (rate_bytes_per_sec refill_period_us : Z) (auto_tuned : bool)
    (single_burst_bytes now : Z) (s : State) :
    0 < rate_bytes_per_sec <= Int64.max ->
    0 < refill_period_us <= Int64.max ->
    MultiTenantRateLimiter_new rate_bytes_per_sec refill_period_us auto_tuned
      single_burst_bytes now = Ok s ->
    reachable s
| reachable_step (s s' : State) :
    reachable s -> step s s' -> reachable s'.

(** The fields the invariant reads. *)
Definition accounts (s : State) :=
  (refill_period_us_ s, rate_bytes_per_sec_ s, refill_bytes_per_period_ s,
   stop_ s, requests_to_wait_ s, queue_ s,
   available_bytes_arr_ s, total_requests_ s, total_bytes_through_ s,
   calls_per_client_ s, multi_tenant_queue_ s, reqs s).

(** ** Further scenarios *)

(** The state a call of [Request] leaves. *)
Definition entered (r : Res (Entered * State)) : State :=
  match r with
  | Ok (_, s) => s
  | Undefined => limiter_10MBps
  end.

(** On a new limiter tenant 3 has queued three requests of 500,000 bytes, in
    the order LOW, USER, MID, and tenant 0 one of 700 bytes. *)
Definition queued_backlog : State :=
  entered (Request_enter 0 700 IO_HIGH 4
    (entered (Request_enter 3 500000 IO_MID 3
      (entered (Request_enter 3 500000 IO_USER 2
        (entered (Request_enter 3 500000 IO_LOW 1 limiter_10MBps))))))).

(** On a new limiter tenant 3 has queued four requests of 300,000 bytes, in
    the order LOW, MID, USER, USER, and tenant 0 two USER requests of 600,000
    bytes. *)
Definition two_tenant_backlog : State :=
  entered (Request_enter 0 600000 IO_USER 6
    (entered (Request_enter 0 600000 IO_USER 5
      (entered (Request_enter 3 300000 IO_USER 4
        (entered (Request_enter 3 300000 IO_USER 3
          (entered (Request_enter 3 300000 IO_MID 2
            (entered (Request_enter 3 300000 IO_LOW 1
              limiter_10MBps))))))))))).

(** An outcome of the shuffle: tenant 3 is served first, tenant 0 fourth. *)
Definition shuffled_order : list Z := [3; 1; 4; 0; 2].

(** * Properties *)

Arguments set_rate _ _ _ /.
Arguments set_raw_single_burst_bytes _ _ /.
Arguments set_stop _ _ /.
Arguments set_requests_to_wait _ _ /.
Arguments set_next_refill_us _ _ /.
Arguments set_wait_until_refill_pending _ _ /.
Arguments set_available_bytes_arr _ _ /.
Arguments set_total_requests _ _ /.
Arguments set_total_bytes_through _ _ /.
Arguments set_calls _ _ _ /.
Arguments set_multi_tenant_queue _ _ /.
Arguments set_reqs _ _ /.
Arguments emit _ _ /.

(** Reads of a field through the setters. *)
Ltac st :=
  cbn [mbind Res_bind
       refill_period_us_ rate_bytes_per_sec_ refill_bytes_per_period_
       raw_single_burst_bytes_ stop_ requests_to_wait_ next_refill_us_
       wait_until_refill_pending_ available_bytes_arr_ total_requests_
       total_bytes_through_ calls_per_client_ total_calls_ queue_
       multi_tenant_queue_ reqs signals
       set_rate set_raw_single_burst_bytes set_stop set_requests_to_wait
       set_next_refill_us set_wait_until_refill_pending
       set_available_bytes_arr set_total_requests set_total_bytes_through
       set_calls set_multi_tenant_queue set_reqs emit
       request_bytes bytes] in *.

(** ** The refill size *)

Section RefillSize.
Variables rate period : Z.
Hypothesis rate_pos : 0 < rate <= Int64.max.
Hypothesis period_pos : 0 < period <= Int64.max.

Lemma max_div_rate : Int64.div Int64.max rate = Ok (Int64.max / rate).
Proof.
  unfold Int64.div.
  destruct (Z.eqb_spec rate 0) as [E|_]; [lia|].
  rewrite Z.quot_div_nonneg by (unfold Int64.max in *; lia).
  assert (0 <= Int64.max / rate <= Int64.max) as Hq.
  { split.
    - apply Z.div_pos; unfold Int64.max in *; lia.
    - apply Z.div_le_upper_bound; [lia|]. unfold Int64.max in *. nia. }
  unfold Int64.fits.
  replace (Int64.min <=? Int64.max / rate) with true
    by (symmetry; apply Z.leb_le; unfold Int64.min; lia).
  replace (Int64.max / rate <=? Int64.max) with true
    by (symmetry; apply Z.leb_le; lia).
  reflexivity.
Qed.

(** The guard of the source is exact: it fires precisely when the product
    leaves the int64 range. *)
Lemma guard_exact : Int64.max / rate < period <-> Int64.max < rate * period.
Proof.
  split; intros H.
  - pose proof (Z.mul_succ_div_gt Int64.max rate ltac:(lia)). nia.
  - apply Z.div_lt_upper_bound; lia.
Qed.
End RefillSize.

(** C6: for a positive rate and a positive period the refill size is
    [rate * period / 1e6] when the product fits in an int64 and
    [INT64_MAX / 1e6] otherwise; no step of the computation overflows, so the
    result is defined, also for [rate = INT64_MAX]. *)
Theorem refill_bytes_per_period_clamped (rate period : Z) :
  0 < rate <= Int64.max ->
  0 < period <= Int64.max ->
  CalculateRefillBytesPerPeriodLocked period rate =
    Ok (if rate * period <=? Int64.max
        then rate * period / kMicrosecondsPerSecond
        else Int64.max / kMicrosecondsPerSecond).
Proof.
  intros Hr Hp. unfold CalculateRefillBytesPerPeriodLocked.
  rewrite (max_div_rate rate Hr). cbn [mbind Res_bind].
  pose proof (guard_exact rate period Hr) as G.
  destruct (Z.ltb_spec (Int64.max / rate) period) as [L|L];
    destruct (Z.leb_spec (rate * period) Int64.max) as [F|F]; try lia.
  - reflexivity.
  - unfold Int64.mul, Int64.fits.
    replace (Int64.min <=? rate * period) with true
      by (symmetry; apply Z.leb_le; unfold Int64.min; nia).
    replace (rate * period <=? Int64.max) with true
      by (symmetry; apply Z.leb_le; lia).
    cbn [andb mbind Res_bind]. unfold Int64.div.
    change (kMicrosecondsPerSecond =? 0) with false. cbv iota.
    rewrite Z.quot_div_nonneg by (unfold kMicrosecondsPerSecond; nia).
    assert (0 <= rate * period / kMicrosecondsPerSecond <= Int64.max) as Hq.
    { split.
      - apply Z.div_pos; unfold kMicrosecondsPerSecond; nia.
      - apply Z.div_le_upper_bound; unfold kMicrosecondsPerSecond; lia. }
    unfold Int64.fits.
    replace (Int64.min <=? rate * period / kMicrosecondsPerSecond) with true
      by (symmetry; apply Z.leb_le; unfold Int64.min; lia).
    replace (rate * period / kMicrosecondsPerSecond <=? Int64.max) with true
      by (symmetry; apply Z.leb_le; lia).
    reflexivity.
Qed.

Lemma refill_bytes_per_period_clamped_witness :
  CalculateRefillBytesPerPeriodLocked 100000 Int64.max = Ok 9223372036854
  /\ CalculateRefillBytesPerPeriodLocked 100000 10000000 = Ok 1000000.
Proof.
  split.
  - rewrite (refill_bytes_per_period_clamped Int64.max 100000);
      [reflexivity | unfold Int64.max; lia | unfold Int64.max; lia].
  - rewrite (refill_bytes_per_period_clamped 10000000 100000);
      [reflexivity | unfold Int64.max; lia | unfold Int64.max; lia].
Defined.

(** ** Status results *)

(** C7: [SetSingleBurstBytes n] answers [InvalidArgument] exactly when
    [n < 0] and then leaves the state as it was; for [n >= 0] it answers OK
    and stores [n] as the raw single-burst value, changing nothing else; no
    other operation answers [InvalidArgument]. *)
Theorem SetSingleBurstBytes_status :
  (forall n s, fst (SetSingleBurstBytes n s) = InvalidArgument <-> n < 0)
  /\ (forall n s, n < 0 -> snd (SetSingleBurstBytes n s) = s)
  /\ (forall n s, 0 <= n ->
        SetSingleBurstBytes n s = (StatusOK, set_raw_single_burst_bytes n s)
        /\ raw_single_burst_bytes_ (snd (SetSingleBurstBytes n s)) = n)
  /\ (forall op s s',
        call op s = Ok (RetStatus InvalidArgument, s') ->
        exists n, op = OpSetSingleBurstBytes n /\ n < 0 /\ s' = s).
Proof.
  split; [|split; [|split]].
  - intros n s. unfold SetSingleBurstBytes.
    destruct (Z.ltb_spec n 0); cbn; split; intros; (lia || discriminate || reflexivity).
  - intros n s H. unfold SetSingleBurstBytes.
    destruct (Z.ltb_spec n 0); [reflexivity|lia].
  - intros n s H. unfold SetSingleBurstBytes.
    destruct (Z.ltb_spec n 0); [lia|split; reflexivity].
  - intros op s s' H. destruct op as [c b p r|n|n|]; cbn in H.
    + destruct (Request_enter c b p r s) as [[e s1]|]; cbn in H; discriminate.
    + destruct (SetBytesPerSecond n s); cbn in H; discriminate.
    + exists n. unfold SetSingleBurstBytes in H.
      destruct (Z.ltb_spec n 0); inversion H; subst; auto.
    + destruct (Destructor_enter s); cbn in H; discriminate.
Qed.

Lemma limiter_10MBps_new :
  MultiTenantRateLimiter_new 10000000 100000 false 0 0 = Ok limiter_10MBps.
Proof. reflexivity. Qed.

Lemma SetSingleBurstBytes_status_witness :
  snd (SetSingleBurstBytes (-1) limiter_10MBps) = limiter_10MBps
  /\ raw_single_burst_bytes_ (snd (SetSingleBurstBytes 4096 limiter_10MBps))
     = 4096.
Proof.
  destruct SetSingleBurstBytes_status as (_ & Hneg & Hpos & _).
  split.
  - apply Hneg. lia.
  - apply Hpos. lia.
Defined.

(** ** Arrays *)

Section Arrays.
Context {A : Type}.
Implicit Types (a : list A) (i : Z) (x : A).

Lemma arr_get_Ok a i x :
  arr_get a i = Ok x <-> 0 <= i /\ a !! Z.to_nat i = Some x.
Proof.
  unfold arr_get. split.
  - destruct (Z.leb_spec 0 i), (Z.ltb_spec i (Z.of_nat (length a)));
      cbn; try discriminate.
    destruct (a !! Z.to_nat i) eqn:E; intros [= ->]; auto.
  - intros [Hi Hx]. pose proof (lookup_lt_Some _ _ _ Hx) as Hlt.
    destruct (Z.leb_spec 0 i), (Z.ltb_spec i (Z.of_nat (length a)));
      cbn; try lia.
    now rewrite Hx.
Qed.

Lemma arr_get_in_range a i :
  0 <= i < Z.of_nat (length a) -> exists x, arr_get a i = Ok x.
Proof.
  intros Hi. destruct (lookup_lt_is_Some_2 a (Z.to_nat i)) as [x Hx]; [lia|].
  exists x. apply arr_get_Ok. split; [lia|done].
Qed.

Lemma arr_set_in_range a i x :
  0 <= i < Z.of_nat (length a) -> arr_set a i x = Ok (<[Z.to_nat i := x]> a).
Proof.
  intros Hi. unfold arr_set.
  destruct (Z.leb_spec 0 i), (Z.ltb_spec i (Z.of_nat (length a)));
    cbn; (lia || reflexivity).
Qed.

Lemma arr_get_range a i x :
  arr_get a i = Ok x -> 0 <= i < Z.of_nat (length a).
Proof.
  intros [Hi Hx]%arr_get_Ok. apply lookup_lt_Some in Hx. lia.
Qed.

Lemma arr_get_insert_eq a i x :
  0 <= i < Z.of_nat (length a) ->
  arr_get (<[Z.to_nat i := x]> a) i = Ok x.
Proof.
  intros Hi. apply arr_get_Ok. split; [lia|].
  apply list_lookup_insert_eq. lia.
Qed.

Lemma arr_get_insert_ne a i j x :
  0 <= i -> 0 <= j -> i <> j ->
  arr_get (<[Z.to_nat i := x]> a) j = arr_get a j.
Proof.
  intros Hi Hj Hne. unfold arr_get. rewrite length_insert.
  rewrite list_lookup_insert_ne by lia. reflexivity.
Qed.

End Arrays.

Lemma pri_ix_range (pri : IOPriority) : pri <> IO_TOTAL -> 0 <= pri_ix pri < 4.
Proof. destruct pri; cbn; intros; (lia || congruence). Qed.

(** ** 64-bit additions *)

Lemma wrap_mod (z : Z) :
  Int64.wrap z = (z - Int64.min) mod 2 ^ 64 + Int64.min.
Proof. unfold Int64.wrap. rewrite Z.mod_eq by lia. lia. Qed.

Lemma wrap_fits (z : Z) : Int64.fits z = true -> Int64.wrap z = z.
Proof.
  rewrite wrap_mod. unfold Int64.fits, Int64.min, Int64.max.
  intros [H1 H2]%andb_true_iff. apply Z.leb_le in H1, H2.
  rewrite Z.mod_small by lia. lia.
Qed.

Lemma wrap_is_int64 (z : Z) : Int64.fits (Int64.wrap z) = true.
Proof.
  rewrite wrap_mod. unfold Int64.fits, Int64.min, Int64.max.
  pose proof (Z.mod_pos_bound (z - -9223372036854775808) (2 ^ 64)
                ltac:(lia)) as H.
  apply andb_true_iff. split; apply Z.leb_le; lia.
Qed.

Lemma wrap_add_l (a b : Z) : Int64.wrap (Int64.wrap a + b) = Int64.wrap (a + b).
Proof.
  rewrite !wrap_mod. f_equal.
  replace ((a - Int64.min) mod 2 ^ 64 + Int64.min + b - Int64.min)
    with ((a - Int64.min) mod 2 ^ 64 + b) by lia.
  replace (a + b - Int64.min) with ((a - Int64.min) + b) by lia.
  apply Zplus_mod_idemp_l.
Qed.

Lemma wrap_wrap (z : Z) : Int64.wrap (Int64.wrap z) = Int64.wrap z.
Proof. apply wrap_fits, wrap_is_int64. Qed.

Lemma add_wrap (a b : Z) : Int64.add a b = Int64.wrap (a + b).
Proof. reflexivity. Qed.

Lemma add_fits (a b : Z) : Int64.fits (a + b) = true -> Int64.add a b = a + b.
Proof. apply wrap_fits. Qed.


(** Within the int64 range the operations are the plain ones; one past
    [INT64_MAX] is [INT64_MIN]. *)
Example add_within_and_past_the_range :
  Int64.add 600 400 = 1000
  /\ Int64.sub 100000 30 = 99970
  /\ Int64.add Int64.max 1 = Int64.min
  /\ Int64.sub Int64.min 1 = Int64.max.
Proof. repeat split. Qed.

Lemma wrap_congr_add (a a' b : Z) :
  Int64.wrap a = Int64.wrap a' -> Int64.wrap (a + b) = Int64.wrap (a' + b).
Proof. intros H. now rewrite <- wrap_add_l, H, wrap_add_l. Qed.

(** ** A request for zero bytes *)



Lemma limiter_10MBps_wf : wf limiter_10MBps.
Proof.
  split; try reflexivity.
  - repeat constructor.
  - intros c j p. unfold queue_at, queue_in.
    cbn [multi_tenant_queue_ limiter_10MBps].
    destruct (arr_get _ c) as [row|] eqn:E; cbn [mbind Res_bind];
      [|inversion 1].
    apply arr_get_Ok in E as [_ E]. apply lookup_replicate in E as [-> _].
    destruct (arr_get _ j) as [q|] eqn:E'; [|inversion 1].
    apply arr_get_Ok in E' as [_ E'].
    change [[]; []; []; []] with (replicate 4 (@nil nat)) in E'.
    apply lookup_replicate in E' as [-> _]. inversion 1.
Qed.

(** ** Queues *)

Lemma arr_get_insert_other {A : Type} (a : list A) (i j : Z) (x : A) :
  0 <= i -> i <> j -> arr_get (<[Z.to_nat i := x]> a) j = arr_get a j.
Proof.
  intros Hi Hne. unfold arr_get. rewrite length_insert.
  destruct (Z.leb_spec 0 j); [|reflexivity].
  rewrite list_lookup_insert_ne by lia. reflexivity.
Qed.

Lemma mtq_get_in_range (s : State) (c j : Z) :
  mtq_shape (multi_tenant_queue_ s) -> 0 <= c < 5 -> 0 <= j < 4 ->
  mtq_get s c j = Ok (queue_at s c j).
Proof.
  intros [Hlen Hrows] Hc Hj. unfold queue_at, queue_in, mtq_get.
  destruct (arr_get_in_range (multi_tenant_queue_ s) c) as [row Hrow];
    [lia|].
  rewrite Hrow. cbn [mbind Res_bind].
  assert (length row = 4%nat) as Hr.
  { apply arr_get_Ok in Hrow as [_ Hrow].
    eapply Forall_lookup_1 in Hrows; eauto. }
  destruct (arr_get_in_range row j) as [q Hq]; [lia|].
  now rewrite Hq.
Qed.

Lemma mtq_set_in_range (c j : Z) (q : list nat) (s : State) :
  mtq_shape (multi_tenant_queue_ s) -> 0 <= c < 5 -> 0 <= j < 4 ->
  exists m,
    mtq_set c j q s = Ok (set_multi_tenant_queue m s)
    /\ mtq_shape m
    /\ queue_in m c j = q
    /\ forall c' j', (c', j') <> (c, j) ->
         queue_in m c' j' = queue_in (multi_tenant_queue_ s) c' j'.
Proof.
  intros [Hlen Hrows] Hc Hj. unfold mtq_set.
  destruct (arr_get_in_range (multi_tenant_queue_ s) c) as [row Hrow];
    [lia|].
  rewrite Hrow. cbn [mbind Res_bind].
  assert (length row = 4%nat) as Hr.
  { apply arr_get_Ok in Hrow as [_ Hrow].
    eapply Forall_lookup_1 in Hrows; eauto. }
  rewrite arr_set_in_range by lia. cbn [mbind Res_bind].
  rewrite arr_set_in_range by lia. cbn [mbind Res_bind].
  eexists. split; [reflexivity|]. split; [|split].
  - split; [now rewrite length_insert|].
    apply Forall_insert; [assumption|]. now rewrite length_insert.
  - unfold queue_in.
    rewrite arr_get_insert_eq by lia. cbn [mbind Res_bind].
    now rewrite arr_get_insert_eq by lia.
  - intros c' j' Hne. unfold queue_in.
    destruct (Z.eq_dec c c') as [<-|Hcc].
    + rewrite arr_get_insert_eq by lia. rewrite Hrow.
      cbn [mbind Res_bind].
      rewrite arr_get_insert_other by (lia || congruence). reflexivity.
    + rewrite arr_get_insert_other by lia. reflexivity.
Qed.

Lemma sumZ_app {A : Type} (f : A -> Z) (l1 l2 : list A) :
  sumZ f (l1 ++ l2) = sumZ f l1 + sumZ f l2.
Proof. induction l1 as [|x l1 IH]; cbn; lia. Qed.

Lemma sumZ_ext {A : Type} (f g : A -> Z) (l : list A) :
  (forall x, x ∈ l -> f x = g x) -> sumZ f l = sumZ g l.
Proof.
  induction l as [|x l IH]; intros H; cbn; [reflexivity|].
  rewrite (H x) by left. rewrite IH; [reflexivity|].
  intros y Hy. apply H. now right.
Qed.

(** A sum over distinct indices when the summand moves at one index only. *)
Lemma sumZ_change_one (f g : Z -> Z) (l : list Z) (c : Z) :
  NoDup l -> c ∈ l -> (forall c', c' <> c -> g c' = f c') ->
  sumZ g l = sumZ f l - f c + g c.
Proof.
  induction 1 as [|x l Hx Hnd IH]; intros Hc Hfg.
  - inversion Hc.
  - cbn. destruct (Z.eq_dec x c) as [->|Hne].
    + rewrite (sumZ_ext g f l); [lia|].
      intros y Hy. apply Hfg. intros ->. contradiction.
    + rewrite (Hfg x Hne). apply elem_of_cons in Hc as [Hc|Hc]; [congruence|].
      rewrite IH by assumption. lia.
Qed.

Lemma clients_upward_NoDup : NoDup clients_upward.
Proof. apply NoDup_seqZ. Qed.

Lemma clients_upward_elem (c : Z) : c ∈ clients_upward <-> 0 <= c < 5.
Proof. unfold clients_upward, kTGNumClients. rewrite elem_of_seqZ. lia. Qed.

(** ** One queue in a refill *)

Lemma wf_mtq_shape (s : State) : wf s -> mtq_shape (multi_tenant_queue_ s).
Proof. intros W. split; [apply (wf_mtq s W) | apply (wf_rows s W)]. Qed.

Lemma bytes_through_get (s : State) (j : Z) :
  wf s -> 0 <= j < 4 ->
  arr_get (total_bytes_through_ s) j = Ok (bytes_through s j).
Proof.
  intros W Hj. unfold bytes_through.
  destruct (arr_get_in_range (total_bytes_through_ s) j) as [t Ht];
    [rewrite (wf_total_bytes_through s W); lia|].
  now rewrite Ht.
Qed.

Lemma bytes_of_insert (s s' : State) (p : nat) (r : Req) (n : Z) :
  reqs s !! p = Some r ->
  reqs s' = <[p := mkReq n (bytes r)]> (reqs s) ->
  forall p', bytes_of s' p' = bytes_of s p'.
Proof.
  intros Hp E p'. unfold bytes_of. rewrite E.
  destruct (decide (p = p')) as [<-|Hne].
  - rewrite lookup_insert_eq, Hp. reflexivity.
  - rewrite lookup_insert_ne by assumption. reflexivity.
Qed.

Lemma live_insert (s : State) (p p' : nat) (r : Req) :
  is_Some (reqs s !! p') -> is_Some (<[p := r]> (reqs s) !! p').
Proof.
  intros H. destruct (decide (p = p')) as [<-|Hne].
  - rewrite lookup_insert_eq. eauto.
  - now rewrite lookup_insert_ne.
Qed.

Lemma foldl_ext_bytes (f g : nat -> Z) (t : Z) (l : list nat) :
  (forall p, f p = g p) ->
  foldl (fun t p => Int64.add t (f p)) t l
  = foldl (fun t p => Int64.add t (g p)) t l.
Proof.
  intros H. revert t. induction l as [|p l IH]; intros t; cbn [foldl].
  - reflexivity.
  - rewrite H. apply IH.
Qed.

(** The 64-bit additions of [l] give the 64-bit value of the sum. *)
Lemma wrap_foldl_add (f : nat -> Z) (t : Z) (l : list nat) :
  Int64.wrap (foldl (fun t p => Int64.add t (f p)) t l)
  = Int64.wrap (t + sumZ f l).
Proof.
  revert t. induction l as [|p l IH]; intros t.
  - cbn. now rewrite Z.add_0_r.
  - cbn [foldl sumZ]. rewrite IH, add_wrap, wrap_add_l. f_equal. lia.
Qed.

Section GrantSteps.
Variables (i c j : Z) (s : State).
Hypothesis Hwf : wf s.
Hypothesis Hi : 0 <= i < 5.
Hypothesis Hc : 0 <= c < 5.
Hypothesis Hj : 0 <= j < 4.

Lemma grant_queue_empty :
  queue_at s c j = [] -> queue_turn i c j s s [].
Proof.
  intros Hq. split; try done.
  - cbn. now rewrite app_nil_r.
  - intros p rest E. congruence.
Qed.

Lemma grant_partially_turn (p : nat) (rest : list nat) (r : Req)
    (avail : Z) :
  queue_at s c j = p :: rest ->
  reqs s !! p = Some r ->
  avail < request_bytes r ->
  exists s', grant_partially i p r avail s = Ok s'
             /\ queue_turn i c j s s' [].
Proof.
  intros Hq Hp Hlt. unfold grant_partially, req_set_request_bytes, req_get.
  rewrite Hp. st.
  rewrite arr_set_in_range by (rewrite (wf_available s Hwf); lia).
  st. eexists. split; [reflexivity|].
  destruct Hwf as [W1 W2 W3 W4 W5 W6 W7 W8].
  split; unfold queue_at, bytes_through in *; st; try done.
  - split; unfold queue_at in *; st; try done.
    + now rewrite length_insert.
    + intros c' j' p' Hin. apply live_insert. eapply W8. exact Hin.
  - now rewrite app_nil_r.
  - intros p'. eapply bytes_of_insert; eauto.
  - intros p' rest' E. rewrite Hq in E. injection E as <- <-.
    split.
    + apply arr_get_insert_eq. rewrite W1. lia.
    + rewrite lookup_insert_eq. eexists. split; [reflexivity|]. st. lia.
  - intros i' Hne. apply arr_get_insert_other; lia.
Qed.

Lemma grant_fully_turn (p : nat) (rest : list nat) (r : Req) (avail : Z) :
  queue_at s c j = p :: rest ->
  reqs s !! p = Some r ->
  exists s', grant_fully i c j p rest r avail s = Ok s'
             /\ wf s'
             /\ queue_at s' c j = rest
             /\ (forall c' j', (c', j') <> (c, j) ->
                   queue_at s' c' j' = queue_at s c' j')
             /\ signals s' = signals s ++ [CvSignal p]
             /\ (forall p', bytes_of s' p' = bytes_of s p')
             /\ bytes_through s' j
                = Int64.add (bytes_through s j) (bytes_of s p)
             /\ (forall j', j' <> j ->
                   bytes_through s' j' = bytes_through s j')
             /\ queue_ s' = queue_ s
             /\ refill_bytes_per_period_ s' = refill_bytes_per_period_ s
             /\ (forall i', i' <> i ->
                   arr_get (available_bytes_arr_ s') i'
                   = arr_get (available_bytes_arr_ s) i').
Proof.
  intros Hq Hp. unfold grant_fully, req_set_request_bytes, req_get.
  rewrite arr_set_in_range by (rewrite (wf_available s Hwf); lia).
  st. rewrite Hp. st. rewrite lookup_insert_eq. st.
  rewrite (bytes_through_get s j Hwf Hj). st.
  rewrite arr_set_in_range by (rewrite (wf_total_bytes_through s Hwf); lia).
  st.
  match goal with
  | |- context [mtq_set c j rest ?s0] =>
      destruct (mtq_set_in_range c j rest s0)
        as (m & Hset & Hshape & Hsame & Hother);
        [exact (wf_mtq_shape s Hwf) | exact Hc | exact Hj |];
        rewrite Hset
  end.
  st. unfold cv_signal, req_get. st. rewrite lookup_insert_eq. st.
  eexists. split; [reflexivity|].
  destruct Hwf as [W1 W2 W3 W4 W5 W6 W7 W8].
  unfold queue_at in *.
  repeat match goal with |- _ /\ _ => split end; st.
  - split; unfold queue_at; st; try assumption.
    + now rewrite length_insert.
    + now rewrite length_insert.
    + apply Hshape.
    + apply Hshape.
    + intros c' j' p' Hin. apply live_insert.
      destruct (decide ((c', j') = (c, j))) as [[= -> ->]|Hne].
      * rewrite Hsame in Hin. apply (W8 c j). rewrite Hq. now right.
      * rewrite (Hother c' j' Hne) in Hin. eapply W8; eauto.
  - exact Hsame.
  - exact Hother.
  - reflexivity.
  - intros p'. eapply bytes_of_insert; eauto.
  - unfold bytes_through at 1. st.
    rewrite arr_get_insert_eq by (rewrite W3; lia).
    unfold bytes_of. now rewrite Hp.
  - intros j' Hne. unfold bytes_through at 1. st.
    rewrite arr_get_insert_other by lia. reflexivity.
  - reflexivity.
  - reflexivity.
  - intros i' Hne. apply arr_get_insert_other; lia.
Qed.
End GrantSteps.

Lemma grant_queue_turn (i c j : Z) :
  0 <= i < 5 -> 0 <= c < 5 -> 0 <= j < 4 ->
  forall (q : list nat) (s : State),
    wf s -> queue_at s c j = q ->
    exists s' g, grant_queue i c j q s = Ok s' /\ queue_turn i c j s s' g.
Proof.
  intros Hi Hc Hj q. induction q as [|p rest IH]; intros s W Hq.
  - exists s, []. split; [reflexivity|]. now apply grant_queue_empty.
  - destruct (wf_live s W c j p) as [r Hr]; [rewrite Hq; left|].
    destruct (arr_get_in_range (available_bytes_arr_ s) i) as [avail Hav];
      [rewrite (wf_available s W); lia|].
    cbn [grant_queue]. unfold req_get at 1. rewrite Hr.
    cbn [mbind Res_bind]. rewrite Hav. cbn [mbind Res_bind].
    destruct (Z.ltb_spec avail (request_bytes r)) as [Hlt|Hge].
    + destruct (grant_partially_turn i c j s W Hi p rest r avail Hq Hr Hlt)
        as (s' & E & T).
      exists s', []. split; assumption.
    + destruct (grant_fully_turn i c j s W Hi Hc Hj p rest r avail Hq Hr)
        as (s1 & E & W1 & Q1 & O1 & S1 & B1 & T1 & TO1 & L1 & R1 & A1).
      rewrite E. cbn [mbind Res_bind].
      destruct (IH s1 W1 Q1) as (s' & g & E' & T').
      exists s', (p :: g). split; [exact E'|].
      destruct T' as [W' Q' O' S' B' T' TO' F' L' R' A'].
      split.
      * exact W'.
      * rewrite Hq. cbn. f_equal. rewrite <- Q1. exact Q'.
      * intros c' j' Hne. rewrite (O' c' j' Hne). now apply O1.
      * rewrite S', S1. cbn. now rewrite <- app_assoc.
      * intros p'. now rewrite B', B1.
      * rewrite T', T1. cbn [foldl]. apply foldl_ext_bytes. exact B1.
      * intros j' Hne. rewrite (TO' j' Hne). now apply TO1.
      * exact F'.
      * now rewrite L'.
      * now rewrite R'.
      * intros i' Hne. rewrite (A' i' Hne). now apply A1.
Qed.

(** The pass of the refill over the tenant at position [i] of the order. *)
Lemma grant_client_turns (client_order : list Z) (i c : Z)
    (s : State) :
  wf s -> 0 <= i < 5 -> arr_get client_order i = Ok c -> 0 <= c < 5 ->
  exists sU sH sM sL gU gH gM gL,
    grant_queue i c (pri_ix IO_USER) (queue_at s c (pri_ix IO_USER)) s = Ok sU
    /\ grant_queue i c (pri_ix IO_HIGH) (queue_at sU c (pri_ix IO_HIGH)) sU
       = Ok sH
    /\ grant_queue i c (pri_ix IO_MID) (queue_at sH c (pri_ix IO_MID)) sH
       = Ok sM
    /\ grant_queue i c (pri_ix IO_LOW) (queue_at sM c (pri_ix IO_LOW)) sM
       = Ok sL
    /\ grant_client client_order i s = Ok sL
    /\ queue_turn i c (pri_ix IO_USER) s sU gU
    /\ queue_turn i c (pri_ix IO_HIGH) sU sH gH
    /\ queue_turn i c (pri_ix IO_MID) sH sM gM
    /\ queue_turn i c (pri_ix IO_LOW) sM sL gL
    /\ signals sL = signals s ++ (CvSignal <$> (gU ++ gH ++ gM ++ gL))
    /\ queue_at s c (pri_ix IO_USER) = gU ++ queue_at sL c (pri_ix IO_USER)
    /\ queue_at s c (pri_ix IO_HIGH) = gH ++ queue_at sL c (pri_ix IO_HIGH)
    /\ queue_at s c (pri_ix IO_MID) = gM ++ queue_at sL c (pri_ix IO_MID)
    /\ queue_at s c (pri_ix IO_LOW) = gL ++ queue_at sL c (pri_ix IO_LOW).
Proof.
  intros W Hi Hord Hc. cbn [pri_ix].
  destruct (grant_queue_turn i c 3 Hi Hc ltac:(lia) _ s W eq_refl)
    as (sU & gU & EU & TU).
  destruct (grant_queue_turn i c 2 Hi Hc ltac:(lia) _ sU (qt_wf _ _ _ _ _ _ TU)
              eq_refl) as (sH & gH & EH & TH).
  destruct (grant_queue_turn i c 1 Hi Hc ltac:(lia) _ sH (qt_wf _ _ _ _ _ _ TH)
              eq_refl) as (sM & gM & EM & TM).
  destruct (grant_queue_turn i c 0 Hi Hc ltac:(lia) _ sM (qt_wf _ _ _ _ _ _ TM)
              eq_refl) as (sL & gL & EL & TL).
  exists sU, sH, sM, sL, gU, gH, gM, gL.
  repeat (split; [assumption|]).
  split.
  { unfold grant_client. change priorities_downward with [3; 2; 1; 0].
    cbn [for_each]. rewrite Hord. cbn [mbind Res_bind].
    rewrite (mtq_get_in_range s c 3) by (auto using wf_mtq_shape || lia).
    cbn [mbind Res_bind]. rewrite EU. cbn [mbind Res_bind].
    rewrite (mtq_get_in_range sU c 2)
      by (eauto using wf_mtq_shape, qt_wf || lia).
    cbn [mbind Res_bind]. rewrite EH. cbn [mbind Res_bind].
    rewrite (mtq_get_in_range sH c 1)
      by (eauto using wf_mtq_shape, qt_wf || lia).
    cbn [mbind Res_bind]. rewrite EM. cbn [mbind Res_bind].
    rewrite (mtq_get_in_range sM c 0)
      by (eauto using wf_mtq_shape, qt_wf || lia).
    cbn [mbind Res_bind]. rewrite EL. reflexivity. }
  repeat (split; [assumption|]).
  split.
  { rewrite (qt_signals _ _ _ _ _ _ TL), (qt_signals _ _ _ _ _ _ TM),
      (qt_signals _ _ _ _ _ _ TH), (qt_signals _ _ _ _ _ _ TU).
    rewrite !fmap_app, <- !app_assoc. reflexivity. }
  assert (forall a b : Z, a <> b -> (c, a) <> (c, b)) as Hne
    by (intros a b Hab [= ?]; contradiction).
  repeat split.
  - rewrite (qt_queue _ _ _ _ _ _ TU). f_equal.
    rewrite (qt_other _ _ _ _ _ _ TL c 3), (qt_other _ _ _ _ _ _ TM c 3),
      (qt_other _ _ _ _ _ _ TH c 3) by (apply Hne; lia). reflexivity.
  - rewrite <- (qt_other _ _ _ _ _ _ TU c 2) by (apply Hne; lia).
    rewrite (qt_queue _ _ _ _ _ _ TH). f_equal.
    rewrite (qt_other _ _ _ _ _ _ TL c 2), (qt_other _ _ _ _ _ _ TM c 2)
      by (apply Hne; lia). reflexivity.
  - rewrite <- (qt_other _ _ _ _ _ _ TU c 1),
      <- (qt_other _ _ _ _ _ _ TH c 1) by (apply Hne; lia).
    rewrite (qt_queue _ _ _ _ _ _ TM). f_equal.
    rewrite (qt_other _ _ _ _ _ _ TL c 1) by (apply Hne; lia). reflexivity.
  - rewrite <- (qt_other _ _ _ _ _ _ TU c 0),
      <- (qt_other _ _ _ _ _ _ TH c 0), <- (qt_other _ _ _ _ _ _ TM c 0)
      by (apply Hne; lia).
    apply (qt_queue _ _ _ _ _ _ TL).
Qed.

(** ** Entering a request *)

Lemma bytes_through_ext (s s' : State) :
  total_bytes_through_ s = total_bytes_through_ s' ->
  forall j, bytes_through s j = bytes_through s' j.
Proof. intros E j. unfold bytes_through. now rewrite E. Qed.

Lemma enqueue_turn (c j : Z) (req : nat) (b : Z) (s : State) :
  wf s -> 0 <= c < 5 -> 0 <= j < 4 ->
  exists s',
    mtq_get (set_reqs (<[req := Req_new b]> (reqs s)) s) c j
    = Ok (queue_at s c j)
    /\ mtq_set c j (queue_at s c j ++ [req])
         (set_reqs (<[req := Req_new b]> (reqs s)) s) = Ok s'
    /\ wf s'
    /\ reqs s' = <[req := mkReq b b]> (reqs s)
    /\ queue_at s' c j = queue_at s c j ++ [req]
    /\ (forall c' j', (c', j') <> (c, j) ->
          queue_at s' c' j' = queue_at s c' j')
    /\ total_bytes_through_ s' = total_bytes_through_ s
    /\ available_bytes_arr_ s' = available_bytes_arr_ s
    /\ signals s' = signals s.
Proof.
  intros W Hc Hj.
  rewrite mtq_get_in_range by (st; auto using wf_mtq_shape).
  unfold queue_at at 1. st. fold (queue_at s c j).
  match goal with
  | |- context [mtq_set c j ?q ?s0] =>
      destruct (mtq_set_in_range c j q s0)
        as (m & Hset & Hshape & Hsame & Hother);
        [exact (wf_mtq_shape s W) | exact Hc | exact Hj |];
        rewrite Hset
  end.
  st. eexists. split; [reflexivity|]. split; [reflexivity|].
  destruct W as [W1 W2 W3 W4 W5 W6 W7 W8].
  unfold queue_at in *.
  repeat match goal with |- _ /\ _ => split end; st; try reflexivity.
  - split; unfold queue_at; st; try assumption; try apply Hshape.
    intros c' j' p' Hin.
    destruct (decide ((c', j') = (c, j))) as [[= -> ->]|Hne].
    + rewrite Hsame in Hin. apply elem_of_app in Hin as [Hin|Hin].
      * apply live_insert. eapply W8; eauto.
      * apply list_elem_of_singleton in Hin as ->.
        rewrite lookup_insert_eq. eauto.
    + rewrite (Hother c' j' Hne) in Hin. apply live_insert. eapply W8; eauto.
  - exact Hsame.
  - exact Hother.
Qed.

Lemma Request_enter_turn (c bytes : Z) (pri : IOPriority) (req : nat)
    (s : State) :
  wf s -> 0 <= c < 5 -> pri <> IO_TOTAL -> stop_ s = false -> 0 <= bytes ->
  exists e s' residual,
    Request_enter c bytes pri req s = Ok (e, s')
    /\ wf s'
    /\ residual
       = bytes - (if 0 <? bucket s c then Z.min (bucket s c) bytes else 0)
    /\ 0 <= residual <= bytes
    /\ bytes_through s' (pri_ix pri)
       = (if 0 <? bucket s c
          then Int64.add (bytes_through s (pri_ix pri)) (bytes - residual)
          else bytes_through s (pri_ix pri))
    /\ (forall j, j <> pri_ix pri -> bytes_through s' j = bytes_through s j)
    /\ signals s' = signals s
    /\ (residual = 0 ->
          e = Returned /\ reqs s' = reqs s
          /\ multi_tenant_queue_ s' = multi_tenant_queue_ s)
    /\ (residual <> 0 ->
          e = Enqueued
          /\ reqs s' = <[req := mkReq residual residual]> (reqs s)
          /\ queue_at s' c (pri_ix pri) = queue_at s c (pri_ix pri) ++ [req]
          /\ forall c' j', (c', j') <> (c, pri_ix pri) ->
               queue_at s' c' j' = queue_at s c' j').
Proof.
  intros W Hc Hp Hstop Hb.
  pose proof (pri_ix_range pri Hp) as Hj.
  destruct (arr_get_in_range (total_requests_ s) (pri_ix pri)) as [n Hn];
    [rewrite (wf_total_requests s W); lia|].
  destruct (arr_get_in_range (calls_per_client_ s) c) as [calls Hcalls];
    [rewrite (wf_calls_per_client s W); lia|].
  destruct (arr_get_in_range (available_bytes_arr_ s) c) as [avail Havail];
    [rewrite (wf_available s W); lia|].
  pose proof (bytes_through_get s (pri_ix pri) W Hj) as Ht.
  assert (bucket s c = avail) as Hbk by (unfold bucket; now rewrite Havail).
  rewrite Hbk.
  unfold Request_enter.
  destruct (Z.eqb_spec c (-2)) as [?|_]; [lia|].
  destruct (Z.eqb_spec c (-1)) as [?|_]; [lia|].
  rewrite Hcalls. st.
  rewrite arr_set_in_range by (rewrite (wf_calls_per_client s W); lia).
  st. rewrite Hstop, Hn. st.
  rewrite arr_set_in_range by (rewrite (wf_total_requests s W); lia).
  st. rewrite Havail. st. rewrite Z.max_r by lia.
  pose (s0 := mkState (refill_period_us_ s) (rate_bytes_per_sec_ s)
               (refill_bytes_per_period_ s) (raw_single_burst_bytes_ s)
               false (requests_to_wait_ s) (next_refill_us_ s)
               (wait_until_refill_pending_ s) (available_bytes_arr_ s)
               (<[Z.to_nat (pri_ix pri) := Int64.add n 1]>
                  (total_requests_ s))
               (total_bytes_through_ s)
               (<[Z.to_nat c := calls + 1]> (calls_per_client_ s))
               (if 1000 <=? total_calls_ s then 0 else total_calls_ s + 1)
               (queue_ s) (multi_tenant_queue_ s) (reqs s) (signals s)).
  assert (wf s0) as W0.
  { destruct W as [W1 W2 W3 W4 W5 W6 W7 W8]. subst s0.
    split; unfold queue_at; st; try assumption; now rewrite length_insert. }
  destruct (Z.ltb_spec 0 avail) as [Hpos|Hnpos].
  - rewrite Ht. st.
    rewrite (arr_set_in_range (total_bytes_through_ s))
      by (rewrite (wf_total_bytes_through s W); lia).
    st. rewrite (arr_set_in_range (available_bytes_arr_ s))
      by (rewrite (wf_available s W); lia).
    st.
    pose (s1 := mkState (refill_period_us_ s) (rate_bytes_per_sec_ s)
                 (refill_bytes_per_period_ s) (raw_single_burst_bytes_ s)
                 false (requests_to_wait_ s) (next_refill_us_ s)
                 (wait_until_refill_pending_ s)
                 (<[Z.to_nat c := avail - Z.min avail bytes]>
                    (available_bytes_arr_ s))
                 (<[Z.to_nat (pri_ix pri) := Int64.add n 1]>
                    (total_requests_ s))
                 (<[Z.to_nat (pri_ix pri)
                    := Int64.add (bytes_through s (pri_ix pri))
                         (Z.min avail bytes)]>
                    (total_bytes_through_ s))
                 (<[Z.to_nat c := calls + 1]> (calls_per_client_ s))
                 (if 1000 <=? total_calls_ s then 0 else total_calls_ s + 1)
                 (queue_ s) (multi_tenant_queue_ s) (reqs s) (signals s)).
    assert (wf s1) as W1.
    { destruct W as [V1 V2 V3 V4 V5 V6 V7 V8]. subst s1.
      split; unfold queue_at; st; try assumption; now rewrite length_insert. }
    assert (bytes_through s1 (pri_ix pri)
            = Int64.add (bytes_through s (pri_ix pri)) (Z.min avail bytes))
      as B1.
    { unfold bytes_through at 1. subst s1. st.
      rewrite arr_get_insert_eq
        by (rewrite (wf_total_bytes_through s W); lia).
      reflexivity. }
    assert (forall j, j <> pri_ix pri ->
                      bytes_through s1 j = bytes_through s j) as B1'.
    { intros j Hne. unfold bytes_through at 1. subst s1. st.
      rewrite arr_get_insert_other by lia. reflexivity. }
    destruct (Z.eqb_spec (bytes - Z.min avail bytes) 0) as [E0|N0].
    + exists Returned, s1, 0. split; [reflexivity|].
      repeat match goal with |- _ /\ _ => split end;
        try assumption; try lia.
      * rewrite B1. f_equal. lia.
      * reflexivity.
      * intros _. repeat split.
    + destruct (enqueue_turn c (pri_ix pri) req (bytes - Z.min avail bytes)
                  s1 W1 Hc Hj)
        as (s' & G & E & W' & R' & Q' & O' & T' & A' & S').
      subst s1. st. rewrite G. st. rewrite E. st.
      exists Enqueued, s', (bytes - Z.min avail bytes).
      split; [reflexivity|].
      repeat match goal with |- _ /\ _ => split end;
        try assumption; try lia.
      * unfold bytes_through at 1. rewrite T'.
        rewrite arr_get_insert_eq
          by (rewrite (wf_total_bytes_through s W); lia).
        f_equal. lia.
      * intros j Hne. unfold bytes_through at 1. rewrite T'.
        rewrite arr_get_insert_other by lia. reflexivity.
      * intros _. repeat split; assumption.
  - st.
    destruct (Z.eqb_spec bytes 0) as [E0|N0].
    + exists Returned, s0, 0. split; [reflexivity|].
      repeat match goal with |- _ /\ _ => split end;
        try assumption; try lia; try reflexivity.
      intros _. repeat split.
    + destruct (enqueue_turn c (pri_ix pri) req bytes s0 W0 Hc Hj)
        as (s' & G & E & W' & R' & Q' & O' & T' & A' & S').
      subst s0. st. rewrite G. st. rewrite E. st.
      exists Enqueued, s', bytes. split; [reflexivity|].
      repeat match goal with |- _ /\ _ => split end;
        try assumption; try lia.
      * unfold bytes_through. now rewrite T'.
      * intros j Hne. unfold bytes_through. now rewrite T'.
      * intros _. repeat split; assumption.
Qed.

(** ** The ledger *)

Lemma pending_bytes_ext (s s' : State) (j : Z) :
  (forall c, 0 <= c < 5 ->
     sumZ (bytes_of s') (queue_at s' c j) = sumZ (bytes_of s) (queue_at s c j))
  -> pending_bytes s' j = pending_bytes s j.
Proof.
  intros H. unfold pending_bytes. apply sumZ_ext.
  intros c Hc%clients_upward_elem. now apply H.
Qed.

Lemma pending_bytes_change_one (s s' : State) (c j : Z) :
  0 <= c < 5 ->
  (forall c', c' <> c ->
     sumZ (bytes_of s') (queue_at s' c' j)
     = sumZ (bytes_of s) (queue_at s c' j)) ->
  pending_bytes s' j
  = pending_bytes s j - sumZ (bytes_of s) (queue_at s c j)
    + sumZ (bytes_of s') (queue_at s' c j).
Proof.
  intros Hc H. unfold pending_bytes.
  apply (sumZ_change_one
           (fun c => sumZ (bytes_of s) (queue_at s c j))
           (fun c => sumZ (bytes_of s') (queue_at s' c j))).
  - apply clients_upward_NoDup.
  - now apply clients_upward_elem.
  - exact H.
Qed.

Lemma queue_turn_ledger (i c j : Z) (s s' : State) (g : list nat) :
  0 <= c < 5 -> queue_turn i c j s s' g ->
  forall j', ledger s' j' = ledger s j'.
Proof.
  intros Hc [W Q O S B T TO F L R A] j'. unfold ledger.
  assert (forall l, sumZ (bytes_of s') l = sumZ (bytes_of s) l) as Hb
    by (intros l; apply sumZ_ext; intros; apply B).
  destruct (Z.eq_dec j' j) as [->|Hne].
  - rewrite !add_wrap.
    rewrite (wrap_congr_add _ (bytes_through s j + sumZ (bytes_of s) g))
      by (rewrite T; apply wrap_foldl_add).
    f_equal. rewrite (pending_bytes_change_one s s' c j Hc).
    + rewrite Hb, Q, sumZ_app. lia.
    + intros c' Hc'. rewrite Hb, O; [reflexivity|]. intros [= ?]. contradiction.
  - rewrite (TO j' Hne). f_equal. apply pending_bytes_ext.
    intros c' _. rewrite Hb, O; [reflexivity|]. intros [= ? ?]. contradiction.
Qed.

Lemma ledger_ext (s s' : State) :
  total_bytes_through_ s' = total_bytes_through_ s ->
  multi_tenant_queue_ s' = multi_tenant_queue_ s ->
  reqs s' = reqs s ->
  forall j, ledger s' j = ledger s j.
Proof.
  intros Et Eq Er j. unfold ledger, bytes_through, pending_bytes.
  rewrite Et. f_equal. apply sumZ_ext. intros c _.
  unfold queue_at. rewrite Eq. apply sumZ_ext. intros p _.
  unfold bytes_of. now rewrite Er.
Qed.

Lemma Request_enter_ledger (c bytes : Z) (pri : IOPriority) (req : nat)
    (s : State) :
  wf s -> 0 <= c < 5 -> pri <> IO_TOTAL -> stop_ s = false -> 0 <= bytes ->
  reqs s !! req = None ->
  exists e s' residual,
    Request_enter c bytes pri req s = Ok (e, s')
    /\ wf s'
    /\ residual
       = bytes - (if 0 <? bucket s c then Z.min (bucket s c) bytes else 0)
    /\ 0 <= residual <= bytes
    /\ bytes_through s' (pri_ix pri)
       = (if 0 <? bucket s c
          then Int64.add (bytes_through s (pri_ix pri)) (bytes - residual)
          else bytes_through s (pri_ix pri))
    /\ (e = Returned <-> residual = 0)
    /\ (e = Returned -> reqs s' = reqs s)
    /\ (e = Enqueued ->
          reqs s' = <[req := mkReq residual residual]> (reqs s)
          /\ queue_at s' c (pri_ix pri) = queue_at s c (pri_ix pri) ++ [req])
    /\ ledger s' (pri_ix pri) = Int64.add (ledger s (pri_ix pri)) bytes
    /\ (forall j, j <> pri_ix pri -> ledger s' j = ledger s j).
Proof.
  intros W Hc Hp Hstop Hb Hfresh.
  destruct (Request_enter_turn c bytes pri req s W Hc Hp Hstop Hb)
    as (e & s' & residual & E & W' & Hres & Hrange & T & TO & S & H0 & H1).
  assert (Int64.wrap (bytes_through s' (pri_ix pri))
          = Int64.wrap (bytes_through s (pri_ix pri) + (bytes - residual)))
    as Tw.
  { rewrite T. destruct (0 <? bucket s c).
    - rewrite add_wrap. apply wrap_wrap.
    - f_equal. lia. }
  exists e, s', residual.
  repeat match goal with |- _ /\ _ => split end; try assumption; try lia.
  - split.
    + intros ->. destruct (Z.eq_dec residual 0) as [?|N]; [assumption|].
      destruct (H1 N) as [? _]. discriminate.
    + intros Z0. now destruct (H0 Z0) as [? _].
  - intros ->. destruct (Z.eq_dec residual 0) as [Z0|N].
    + now destruct (H0 Z0) as (_ & R & _).
    + destruct (H1 N) as [? _]. discriminate.
  - intros ->. destruct (Z.eq_dec residual 0) as [Z0|N].
    + destruct (H0 Z0) as [? _]. discriminate.
    + destruct (H1 N) as (_ & R & Q & _). split; assumption.
  - unfold ledger. rewrite !add_wrap, wrap_add_l.
    rewrite (wrap_congr_add _ _ _ Tw). f_equal.
    destruct (Z.eq_dec residual 0) as [Z0|N].
    + destruct (H0 Z0) as (_ & R & Q).
      rewrite (pending_bytes_ext s s').
      * lia.
      * intros c' _. unfold queue_at. rewrite Q. apply sumZ_ext.
        intros p _. unfold bytes_of. now rewrite R.
    + destruct (H1 N) as (_ & R & Q & O).
      assert (forall c' j' p, p ∈ queue_at s c' j' ->
                              bytes_of s' p = bytes_of s p) as Hold.
      { intros c' j' p Hin. unfold bytes_of. rewrite R.
        rewrite lookup_insert_ne; [reflexivity|]. intros <-.
        destruct (wf_live s W c' j' req Hin) as [r Hr]. congruence. }
      rewrite (pending_bytes_change_one s s' c (pri_ix pri) Hc).
      * rewrite Q, sumZ_app. cbn [sumZ].
        rewrite (sumZ_ext (bytes_of s') (bytes_of s)
                   (queue_at s c (pri_ix pri))) by (intros; eapply Hold; eauto).
        unfold bytes_of at 3. rewrite R, lookup_insert_eq. st. lia.
      * intros c' Hc'. rewrite O by (intros [= ?]; contradiction).
        apply sumZ_ext. intros; eapply Hold; eauto.
  - intros j Hne. unfold ledger. rewrite (TO j Hne). f_equal.
    destruct (Z.eq_dec residual 0) as [Z0|N].
    + destruct (H0 Z0) as (_ & R & Q).
      apply pending_bytes_ext. intros c' _. unfold queue_at. rewrite Q.
      apply sumZ_ext. intros p _. unfold bytes_of. now rewrite R.
    + destruct (H1 N) as (_ & R & Q & O).
      apply pending_bytes_ext. intros c' _.
      rewrite O by (intros [= ? ?]; contradiction).
      apply sumZ_ext. intros p Hin. unfold bytes_of. rewrite R.
      rewrite lookup_insert_ne; [reflexivity|]. intros <-.
      destruct (wf_live s W c' j req Hin) as [r Hr]. congruence.
Qed.

(** ** The whole refill *)

Lemma accounts_kept_refl (s : State) : accounts_kept s s.
Proof. repeat split. Qed.

Lemma accounts_kept_trans (s1 s2 s3 : State) :
  accounts_kept s1 s2 -> accounts_kept s2 s3 -> accounts_kept s1 s3.
Proof.
  intros (L1 & B1 & Q1 & R1) (L2 & B2 & Q2 & R2).
  repeat split; intros; congruence.
Qed.

Lemma for_each_kept {I : Type} (body : I -> State -> Res State)
    (ok : I -> Prop) :
  (forall i s, ok i -> wf s ->
     exists s', body i s = Ok s' /\ wf s' /\ accounts_kept s s') ->
  forall ixs s, Forall ok ixs -> wf s ->
    exists s', for_each body ixs s = Ok s' /\ wf s' /\ accounts_kept s s'.
Proof.
  intros Hbody ixs. induction ixs as [|i ixs IH]; intros s Hok W.
  - exists s. split; [reflexivity|]. split; [assumption|].
    apply accounts_kept_refl.
  - apply Forall_cons in Hok as [Hi Hok].
    destruct (Hbody i s Hi W) as (s1 & E1 & W1 & K1).
    destruct (IH s1 Hok W1) as (s' & E' & W' & K').
    exists s'. cbn [for_each]. rewrite E1. cbn [mbind Res_bind].
    split; [assumption|]. split; [assumption|].
    eapply accounts_kept_trans; eauto.
Qed.

Lemma queue_turn_kept (i c j : Z) (s s' : State) (g : list nat) :
  0 <= c < 5 -> queue_turn i c j s s' g -> accounts_kept s s'.
Proof.
  intros Hc T. split; [|split; [|split]].
  - eapply queue_turn_ledger; eauto.
  - apply (qt_bytes _ _ _ _ _ _ T).
  - apply (qt_legacy _ _ _ _ _ _ T).
  - apply (qt_refill _ _ _ _ _ _ T).
Qed.

Lemma client_order_entry (client_order : list Z) (i : Z) :
  Permutation client_order clients_upward -> 0 <= i < 5 ->
  exists c, arr_get client_order i = Ok c /\ 0 <= c < 5.
Proof.
  intros P Hi. pose proof (Permutation_length P) as Hlen.
  change (length clients_upward) with 5%nat in Hlen.
  destruct (arr_get_in_range client_order i) as [c Hc]; [lia|].
  exists c. split; [assumption|].
  apply clients_upward_elem. apply arr_get_Ok in Hc as [_ Hc].
  apply list_elem_of_lookup_2 in Hc. apply list_elem_of_In.
  eapply Permutation_in; [exact P|]. now apply list_elem_of_In.
Qed.

Lemma grant_client_kept (client_order : list Z) (i : Z) (s : State) :
  Permutation client_order clients_upward -> 0 <= i < 5 -> wf s ->
  exists s', grant_client client_order i s = Ok s'
             /\ wf s' /\ accounts_kept s s'.
Proof.
  intros P Hi W. destruct (client_order_entry client_order i P Hi)
    as (c & Hord & Hc).
  unfold grant_client.
  apply (for_each_kept _ (fun j => 0 <= j < 4)); [| |exact W];
    [|apply Forall_forall; intros j Hj;
      change priorities_downward with [3; 2; 1; 0] in Hj;
      repeat (apply elem_of_cons in Hj as [->|Hj]; [lia|]);
      inversion Hj].
  intros j s0 Hj W0. rewrite Hord. cbn [mbind Res_bind].
  rewrite (mtq_get_in_range s0 c j) by (auto using wf_mtq_shape).
  cbn [mbind Res_bind].
  destruct (grant_queue_turn i c j Hi Hc Hj _ s0 W0 eq_refl)
    as (s' & g & E & T).
  exists s'. split; [exact E|]. split; [apply (qt_wf _ _ _ _ _ _ T)|].
  eapply queue_turn_kept; eauto.
Qed.

Lemma RefillBytesAndGrantRequestsLocked_kept (now : Z) (client_order : list Z)
    (s : State) :
  wf s -> Permutation client_order clients_upward ->
  exists s', RefillBytesAndGrantRequestsLocked now client_order s = Ok s'
             /\ wf s' /\ accounts_kept s s'.
Proof.
  intros W P. unfold RefillBytesAndGrantRequestsLocked. cbv zeta.
  set (s0 := set_next_refill_us (Int64.add now (refill_period_us_ s)) s).
  assert (wf s0) as W0.
  { destruct W. subst s0. split; unfold queue_at; st; assumption. }
  assert (accounts_kept s s0) as K0.
  { subst s0. split; [|repeat split].
    apply ledger_ext; reflexivity. }
  assert (Forall (fun i => 0 <= i < 5) clients_upward) as Hall.
  { apply Forall_forall. intros i Hi. now apply clients_upward_elem. }
  assert (forall i s1, 0 <= i < 5 -> wf s1 ->
            exists s', (av ← arr_set (available_bytes_arr_ s1) i
                               (refill_bytes_per_period_ s0);
                        Ok (set_available_bytes_arr av s1)) = Ok s'
                       /\ wf s' /\ accounts_kept s1 s') as Hreset.
  { intros i s1 Hi Ws1.
    rewrite arr_set_in_range by (rewrite (wf_available s1 Ws1); lia).
    cbn [mbind Res_bind]. eexists. split; [reflexivity|]. split.
    - destruct Ws1. split; unfold queue_at; st; try assumption.
      now rewrite length_insert.
    - split; [|repeat split]. apply ledger_ext; reflexivity. }
  destruct (for_each_kept _ _ Hreset clients_upward s0 Hall W0)
    as (s1 & E1 & W1 & K1).
  rewrite E1. cbn [mbind Res_bind].
  assert (forall i s2, 0 <= i < 5 -> wf s2 ->
            exists s', grant_client client_order i s2 = Ok s'
                       /\ wf s' /\ accounts_kept s2 s') as Hgrant
    by (intros; now apply grant_client_kept).
  destruct (for_each_kept _ _ Hgrant clients_upward s1 Hall W1)
    as (s' & E' & W' & K').
  exists s'. split; [exact E'|]. split; [exact W'|].
  apply (accounts_kept_trans s s1 s'); [|exact K'].
  apply (accounts_kept_trans s s0 s1); assumption.
Qed.

(** ** Checking a state *)

Lemma wf_check_sound (s : State) : wf_check s = true -> wf s.
Proof.
  unfold wf_check. rewrite !andb_true_iff, !Nat.eqb_eq, !forallb_forall.
  intros (((((((H1 & H2) & H3) & H4) & H5) & H6) & H7) & H8).
  split; try assumption.
  - apply Forall_forall. intros row Hrow%list_elem_of_In.
    apply Nat.eqb_eq. now apply H7.
  - intros c j p. unfold queue_at, queue_in.
    destruct (arr_get (multi_tenant_queue_ s) c) as [row|] eqn:Er;
      cbn [mbind Res_bind]; [|inversion 1].
    destruct (arr_get row j) as [q|] eqn:Eq; [|inversion 1].
    intros Hp.
    apply arr_get_Ok in Er as [_ Er]. apply list_elem_of_lookup_2 in Er.
    apply arr_get_Ok in Eq as [_ Eq]. apply list_elem_of_lookup_2 in Eq.
    apply list_elem_of_In in Er, Eq, Hp.
    specialize (H8 row Er). rewrite forallb_forall in H8.
    specialize (H8 q Eq). rewrite forallb_forall in H8.
    specialize (H8 p Hp). destruct (reqs s !! p); [eauto|discriminate].
Qed.

Lemma limiter_refilled_wf : wf limiter_refilled.
Proof. apply wf_check_sound. vm_compute. reflexivity. Qed.


Lemma tenant3_backlog_wf : wf tenant3_backlog.
Proof. apply wf_check_sound. vm_compute. reflexivity. Qed.

Lemma identity_order_permutation : Permutation identity_order clients_upward.
Proof. apply Permutation_refl. Qed.

(** ** Priority and queue order in a refill *)

Lemma reset_buckets (refill : Z) (s : State) :
  length (available_bytes_arr_ s) = 5%nat ->
  for_each (fun i s0 =>
              av ← arr_set (available_bytes_arr_ s0) i refill;
              Ok (set_available_bytes_arr av s0))
           clients_upward s
  = Ok (set_available_bytes_arr (replicate 5 refill) s).
Proof.
  intros Hlen. destruct s as [p r f b st w n wp av tr tb cp tc q m h sg].
  cbn in Hlen.
  destruct av as [|a0 [|a1 [|a2 [|a3 [|a4 [|a5 av]]]]]]; try discriminate.
  reflexivity.
Qed.

(** The refill is the bucket reset followed by the five passes. *)
Lemma refill_passes (now : Z) (client_order : list Z) (s : State) :
  wf s ->
  RefillBytesAndGrantRequestsLocked now client_order s
  = for_each (grant_client client_order) clients_upward (refill_start now s).
Proof.
  intros W. unfold RefillBytesAndGrantRequestsLocked. cbv zeta.
  rewrite reset_buckets by (st; apply (wf_available s W)).
  reflexivity.
Qed.

Lemma refill_start_wf (now : Z) (s : State) : wf s -> wf (refill_start now s).
Proof.
  intros []. unfold refill_start.
  split; unfold queue_at in *; st; try assumption.
  now rewrite length_replicate.
Qed.

Lemma tenant_pass_runs (client_order : list Z) (i : Z) (s : State) :
  Permutation client_order clients_upward -> 0 <= i < 5 -> wf s ->
  exists s', tenant_pass client_order i s s' /\ wf s'.
Proof.
  intros P Hi W.
  destruct (client_order_entry client_order i P Hi) as (c & Hord & Hc).
  destruct (grant_client_turns client_order i c s W Hi Hord Hc)
    as (sU & sH & sM & sL & gU & gH & gM & gL & H).
  exists sL. split.
  - exists c, sU, sH, sM, gU, gH, gM, gL. split; [exact Hord|exact H].
  - destruct H as (_ & _ & _ & _ & _ & _ & _ & _ & TL & _).
    apply (qt_wf _ _ _ _ _ _ TL).
Qed.

Lemma tenant_pass_result (client_order : list Z) (i : Z) (s s' : State) :
  tenant_pass client_order i s s' -> grant_client client_order i s = Ok s'.
Proof.
  intros (c & sU & sH & sM & gU & gH & gM & gL & _ & _ & _ & _ & _ & E & _).
  exact E.
Qed.

Lemma shuffled_order_permutation : Permutation shuffled_order clients_upward.
Proof.
  change clients_upward with [0; 1; 2; 3; 4]. unfold shuffled_order.
  apply (Permutation_trans (l' := [1; 3; 4; 0; 2])); [apply perm_swap|].
  apply (Permutation_trans (l' := [1; 3; 0; 4; 2]));
    [do 2 apply perm_skip; apply perm_swap|].
  apply (Permutation_trans (l' := [1; 0; 3; 4; 2]));
    [apply perm_skip; apply perm_swap|].
  apply (Permutation_trans (l' := [0; 1; 3; 4; 2])); [apply perm_swap|].
  do 2 apply perm_skip.
  apply (Permutation_trans (l' := [3; 2; 4]));
    [apply perm_skip; apply perm_swap|].
  apply (Permutation_trans (l' := [2; 3; 4])); [apply perm_swap|].
  apply Permutation_refl.
Qed.

Lemma two_tenant_backlog_wf : wf two_tenant_backlog.
Proof. apply wf_check_sound. vm_compute. reflexivity. Qed.

(** C4: a refill resets the buckets and then makes one pass for each
    position of the shuffled order, each pass on the state the pass before
    it left.  In the pass at position [i] the queues of the tenant
    [client_order[i]] are taken from [IO_USER] down to [IO_LOW], each turn
    starting in the state the turn before it left; in each queue the records
    granted are a prefix of the queue, signalled in queue order, and the
    records not granted stay queued in their order; a turn that leaves its
    queue non-empty has granted the front only in part (the record is still
    at the front, its demand stays positive and the bucket the loop draws
    from is empty) and the next lower priority is then served all the
    same. *)
Theorem refill_strict_priority_fifo (now : Z) (client_order : list Z)
    (s : State) :
  wf s -> Permutation client_order clients_upward ->
  exists s1 s2 s3 s4 s5,
    tenant_pass client_order 0 (refill_start now s) s1
    /\ tenant_pass client_order 1 s1 s2
    /\ tenant_pass client_order 2 s2 s3
    /\ tenant_pass client_order 3 s3 s4
    /\ tenant_pass client_order 4 s4 s5
    /\ RefillBytesAndGrantRequestsLocked now client_order s = Ok s5.
Proof.
  intros W P.
  destruct (tenant_pass_runs client_order 0 (refill_start now s) P
              ltac:(lia) (refill_start_wf now s W)) as (s1 & T1 & W1).
  destruct (tenant_pass_runs client_order 1 s1 P ltac:(lia) W1)
    as (s2 & T2 & W2).
  destruct (tenant_pass_runs client_order 2 s2 P ltac:(lia) W2)
    as (s3 & T3 & W3).
  destruct (tenant_pass_runs client_order 3 s3 P ltac:(lia) W3)
    as (s4 & T4 & W4).
  destruct (tenant_pass_runs client_order 4 s4 P ltac:(lia) W4)
    as (s5 & T5 & W5).
  exists s1, s2, s3, s4, s5.
  repeat (split; [assumption|]).
  rewrite (refill_passes now client_order s W).
  change clients_upward with [0; 1; 2; 3; 4]. cbn [for_each].
  rewrite (tenant_pass_result _ _ _ _ T1). cbn [mbind Res_bind].
  rewrite (tenant_pass_result _ _ _ _ T2). cbn [mbind Res_bind].
  rewrite (tenant_pass_result _ _ _ _ T3). cbn [mbind Res_bind].
  rewrite (tenant_pass_result _ _ _ _ T4). cbn [mbind Res_bind].
  rewrite (tenant_pass_result _ _ _ _ T5). reflexivity.
Qed.

Lemma refill_strict_priority_fifo_witness :
  exists s1 s2 s3 s4 s5,
    tenant_pass shuffled_order 0 (refill_start 100000 two_tenant_backlog) s1
    /\ tenant_pass shuffled_order 1 s1 s2
    /\ tenant_pass shuffled_order 2 s2 s3
    /\ tenant_pass shuffled_order 3 s3 s4
    /\ tenant_pass shuffled_order 4 s4 s5
    /\ RefillBytesAndGrantRequestsLocked 100000 shuffled_order
         two_tenant_backlog = Ok s5.
Proof.
  apply (refill_strict_priority_fifo 100000 shuffled_order two_tenant_backlog).
  - exact two_tenant_backlog_wf.
  - exact shuffled_order_permutation.
Defined.

(** In that refill tenant 3 is served first, from a bucket of 1,000,000
    bytes: its two USER requests are granted in the order they were queued,
    then its MID request, and its LOW request, the first to be queued, gets
    the 100,000 bytes that are left and stays queued for 200,000.  Tenant 0
    has its first USER request granted and the second in part. *)
Example priority_and_fifo_in_a_refill :
  (fun s => (signals s, queue_at s 3 (pri_ix IO_LOW), reqs s !! 1%nat,
             queue_at s 0 (pri_ix IO_USER), reqs s !! 6%nat))
    <$> RefillBytesAndGrantRequestsLocked 100000 shuffled_order
          two_tenant_backlog
  = Ok ([CvSignal 3; CvSignal 4; CvSignal 2; CvSignal 5],
        [1%nat], Some (mkReq 200000 300000),
        [6%nat], Some (mkReq 200000 600000)).
Proof. vm_compute. reflexivity. Qed.

(** With a budget of 1,000,000 per period the refill grants USER, then MID,
    and leaves LOW queued with its demand untouched. *)
Example priority_within_tenant :
  (fun s => (signals s, queue_at s 3 (pri_ix IO_LOW), reqs s !! 1%nat,
             total_bytes_through_ s))
    <$> RefillBytesAndGrantRequestsLocked 100000 identity_order tenant3_backlog
  = Ok ([CvSignal 2; CvSignal 3], [1%nat], Some (mkReq 500000 500000),
        [0; 500000; 0; 500000]).
Proof. vm_compute. reflexivity. Qed.

(** ** Exhaustion and refill *)

(** Exhaustion, then refill: of two requests for 600,000 bytes the first is
    charged at once; the second is charged 400,000 at once and queued for
    200,000; the refill grants it, and 1,200,000 bytes have gone through. *)
Example exhaustion_then_refill :
  ('(e1, s) ← Request_enter 0 600000 IO_USER 1 limiter_refilled;
   '(e2, s) ← Request_enter 0 600000 IO_USER 2 s;
   let queued := reqs s !! 2%nat in
   let charged := total_bytes_through_ s in
   s ← RefillBytesAndGrantRequestsLocked 100000 identity_order s;
   Ok (e1, e2, queued, charged, total_bytes_through_ s, signals s))
  = Ok (Returned, Enqueued, Some (mkReq 200000 200000),
        [0; 0; 0; 1000000], [0; 0; 0; 1200000], [CvSignal 2]).
Proof. vm_compute. reflexivity. Qed.

(** ** The bucket a refill charges *)

(** C1: tenant 1 is visited first ([client_order[0] = 1]) and its record of
    600 bytes is granted in full; the 600 bytes are taken from
    [available_bytes_arr_[0]], the bucket of tenant 0, and the bucket of
    tenant 1 stays full. *)
Theorem refill_charges_bucket_of_loop_index :
  (fun '(duty, s) =>
     (duty, available_bytes_arr_ s, signals s, reqs s !! 7%nat))
    <$> first_request_of_tenant_1
  = Ok (Refilled, [999400; 1000000; 1000000; 1000000; 1000000],
        [CvSignal 7], Some (mkReq 0 600)).
Proof. vm_compute. reflexivity. Qed.

(** The pass over the tenant at position [i] of the order reads and writes
    the bucket [i] only: when [client_order[i]] is another tenant, that
    tenant's own bucket is as it was. *)
Lemma grant_client_leaves_other_buckets (client_order : list Z) (i c : Z)
    (s : State) :
  wf s -> 0 <= i < 5 -> arr_get client_order i = Ok c -> 0 <= c < 5 ->
  exists s', grant_client client_order i s = Ok s'
             /\ forall i', i' <> i ->
                  arr_get (available_bytes_arr_ s') i'
                  = arr_get (available_bytes_arr_ s) i'.
Proof.
  intros W Hi Hord Hc.
  destruct (grant_client_turns client_order i c s W Hi Hord Hc)
    as (sU & sH & sM & sL & gU & gH & gM & gL
        & _ & _ & _ & _ & E & TU & TH & TM & TL & _).
  exists sL. split; [exact E|]. intros i' Hne.
  rewrite (qt_buckets _ _ _ _ _ _ TL i' Hne), (qt_buckets _ _ _ _ _ _ TM i' Hne),
    (qt_buckets _ _ _ _ _ _ TH i' Hne), (qt_buckets _ _ _ _ _ _ TU i' Hne).
  reflexivity.
Qed.

(** ** Shutdown *)

(** No operation puts a request in the legacy queues, and with these queues
    empty the destructor counts no request and signals none. *)
Lemma Destructor_enter_legacy_empty (s : State) :
  queue_ s = [[]; []; []; []] ->
  Destructor_enter s = Ok (set_requests_to_wait 0 (set_stop true s)).
Proof.
  intros H. unfold Destructor_enter. st. rewrite H.
  change priorities_downward with [3; 2; 1; 0]. reflexivity.
Qed.

(** C2: records 2 and 3 are queued in [multi_tenant_queue_] when the
    destructor runs; it reads [queue_], so [requests_to_wait_] is 0, neither
    record is signalled (the log holds the earlier grant of record 1 and the
    drain tick only) and the destructor does not wait. *)
Theorem destructor_overlooks_pending_requests :
  (fun s => (queue_at s 0 (pri_ix IO_USER), queue_at s 0 (pri_ix IO_LOW),
             requests_to_wait_ s, signals s, Destructor_waits s))
    <$> shutdown_with_pending
  = Ok ([2%nat], [3%nat], 0, [CvSignal 1; DrainTick], false).
Proof. vm_compute. reflexivity. Qed.

(** ** The hand-off after a grant *)

Lemma first_front_queued (row : list (list nat)) (js : list Z) (p : nat) :
  first_front row js = Some p ->
  exists j rest, arr_get row j = Ok (p :: rest).
Proof.
  induction js as [|j js IH]; cbn [first_front]; [discriminate|].
  destruct (arr_get row j) as [[|front rest]|] eqn:E; try discriminate.
  - exact IH.
  - intros [= ->]. eauto.
Qed.

Lemma signal_front_of_client_front (row : list (list nat)) (js : list Z)
    (s : State) :
  Forall (fun j => 0 <= j < Z.of_nat (length row)) js ->
  (forall p, first_front row js = Some p -> is_Some (reqs s !! p)) ->
  signal_front_of_client row js s
  = Ok (match first_front row js with
        | Some p => emit (CvSignal p) s
        | None => s
        end).
Proof.
  induction js as [|j js IH]; intros Hjs Hlive; [reflexivity|].
  apply Forall_cons in Hjs as [Hj Hjs].
  cbn [signal_front_of_client first_front] in *.
  destruct (arr_get_in_range row j Hj) as [q Hq]. rewrite Hq in *.
  cbn [mbind Res_bind]. destruct q as [|front rest].
  - now apply IH.
  - unfold cv_signal, req_get. destruct (Hlive front eq_refl) as [r Hr].
    rewrite Hr. reflexivity.
Qed.

Lemma emit_all_nil (s : State) : emit_all [] s = s.
Proof. destruct s. unfold emit_all. cbn. now rewrite app_nil_r. Qed.

Lemma emit_all_app (es es' : list Event) (s : State) :
  emit_all es' (emit_all es s) = emit_all (es ++ es') s.
Proof. unfold emit_all. cbn. now rewrite app_assoc. Qed.

Lemma priorities_downward_in_range :
  Forall (fun j => 0 <= j < 4) priorities_downward.
Proof. change priorities_downward with [3; 2; 1; 0]. repeat constructor; lia. Qed.

(** The hand-off signals, tenant by tenant in index order, the front of the
    highest non-empty priority queue of every tenant that has one, and
    changes nothing else. *)
Lemma signal_front_requests_fronts (s : State) :
  wf s ->
  signal_front_requests s
  = Ok (emit_all (CvSignal <$> omap (handoff_front s) clients_upward) s).
Proof.
  intros W. unfold signal_front_requests.
  assert (forall cs s0,
            Forall (fun c => 0 <= c < 5) cs ->
            multi_tenant_queue_ s0 = multi_tenant_queue_ s ->
            reqs s0 = reqs s ->
            for_each (fun i s1 =>
                        row ← arr_get (multi_tenant_queue_ s1) i;
                        signal_front_of_client row priorities_downward s1)
                     cs s0
            = Ok (emit_all (CvSignal <$> omap (handoff_front s) cs) s0)) as H.
  { induction cs as [|c cs IH]; intros s0 Hcs Hm Hr.
    - cbn. now rewrite emit_all_nil.
    - apply Forall_cons in Hcs as [Hc Hcs]. cbn [for_each omap list_omap].
      destruct (arr_get_in_range (multi_tenant_queue_ s) c) as [row Hrow];
        [rewrite (wf_mtq s W); lia|].
      rewrite Hm, Hrow. cbn [mbind Res_bind].
      assert (length row = 4%nat) as Hlen.
      { pose proof (wf_rows s W) as Hrows.
        apply arr_get_Ok in Hrow as [_ Hrow'].
        eapply Forall_lookup_1 in Hrows; eauto. }
      rewrite signal_front_of_client_front.
      + cbn [mbind Res_bind]. unfold handoff_front at 1. rewrite Hrow.
        destruct (first_front row priorities_downward) as [p|].
        * rewrite IH by (st; assumption).
          cbn [fmap list_fmap]. unfold emit_all. st.
          now rewrite <- app_assoc.
        * now rewrite IH.
      + rewrite Hlen. exact priorities_downward_in_range.
      + intros p Hp. rewrite Hr.
        destruct (first_front_queued _ _ _ Hp) as (j & rest & Hj).
        apply (wf_live s W c j). unfold queue_at, queue_in.
        rewrite Hrow. cbn [mbind Res_bind]. rewrite Hj. left. }
  rewrite H; [reflexivity| |reflexivity|reflexivity].
  apply Forall_forall. intros c Hc. now apply clients_upward_elem.
Qed.

(** C3: the thread of record 4 has refilled and its record is granted;
    records 7 (tenant 1) and 8 (tenant 2) are at the front of their queues.
    The hand-off signals both: the [break] leaves the priority loop only and
    the client loop goes on. *)
Theorem handoff_signals_one_front_per_tenant :
  (s ← handoff_after_refill;
   r ← req_get s 4;
   '(again, s') ← Request_iteration_end 4 s;
   Ok (request_bytes r, queue_at s 1 (pri_ix IO_LOW),
       queue_at s 2 (pri_ix IO_LOW), again, new_signals s s'))
  = Ok (0, [7%nat], [8%nat], false, [CvSignal 7; CvSignal 8]).
Proof. vm_compute. reflexivity. Qed.

(** ** The tenant of a request *)

(** A thread marked invalid returns at once and nothing changes. *)
Lemma Request_enter_invalid_client (bytes : Z) (pri : IOPriority) (req : nat)
    (s : State) :
  Request_enter kClientInvalid bytes pri req s = Ok (Returned, s).
Proof. reflexivity. Qed.

(** C9: for a thread without a tenant the first array access of [Request],
    [calls_per_client_[thread_metadata.client_id]++], uses the index -1,
    which is outside the array. *)
Theorem unset_client_indexes_out_of_bounds (bytes : Z) (pri : IOPriority)
    (req : nat) (s : State) :
  arr_get (calls_per_client_ s) kClientUnset = Undefined
  /\ Request_enter kClientUnset bytes pri req s = Undefined.
Proof. split; reflexivity. Qed.

(** C5: on the same limiter a request of tenant 1 is counted in
    [calls_per_client_[1]] and queued, while the same request from a thread
    without a tenant runs into the access at index -1 before anything else
    happens. *)
Theorem unset_client_is_not_handled_as_tenant_1 :
  Request_enter kClientUnset 600 IO_USER 7 limiter_10MBps = Undefined
  /\ (fun '(e, s) => (e, calls_per_client_ s, queue_at s 1 (pri_ix IO_USER)))
       <$> Request_enter 1 600 IO_USER 7 limiter_10MBps
     = Ok (Enqueued, [0; 1; 0; 0; 0], [7%nat]).
Proof. split; vm_compute; reflexivity. Qed.

(** * Further properties *)

(** ** The priority order of the single-bucket refill *)

(** X1: whatever the two draws, the order names each of the four priorities
    once, [IO_USER] first; [IO_HIGH] comes last exactly when the first draw
    says so and second otherwise; [IO_MID] comes after [IO_LOW] exactly when
    the second draw says so. *)
Theorem priority_order_is_a_permutation (high_after mid_after : bool) :
  let order := GeneratePriorityIterationOrderLocked high_after mid_after in
  Permutation order [IO_USER; IO_HIGH; IO_MID; IO_LOW]
  /\ place_of IO_USER order = Some 0%nat
  /\ place_of IO_HIGH order = Some (if high_after then 3%nat else 1%nat)
  /\ (exists m l, place_of IO_MID order = Some m
                  /\ place_of IO_LOW order = Some l
                  /\ ((l < m)%nat <-> mid_after = true)
                  /\ ((m < l)%nat <-> mid_after = false)).
Proof.
  destruct high_after, mid_after; cbn.
  - split; [|split; [reflexivity|split; [reflexivity|]]].
    + apply perm_skip.
      apply (Permutation_trans (l' := [IO_MID; IO_LOW; IO_HIGH]));
        [apply perm_swap|].
      change [IO_MID; IO_LOW; IO_HIGH] with ([IO_MID; IO_LOW] ++ [IO_HIGH]).
      apply Permutation_sym, (Permutation_cons_append [IO_MID; IO_LOW]).
    + exists 2%nat, 1%nat. repeat split; intros; (lia || discriminate).
  - split; [|split; [reflexivity|split; [reflexivity|]]].
    + apply perm_skip.
      change [IO_MID; IO_LOW; IO_HIGH] with ([IO_MID; IO_LOW] ++ [IO_HIGH]).
      apply Permutation_sym, (Permutation_cons_append [IO_MID; IO_LOW]).
    + exists 1%nat, 2%nat. repeat split; intros; (lia || discriminate).
  - split; [|split; [reflexivity|split; [reflexivity|]]].
    + do 2 apply perm_skip. apply perm_swap.
    + exists 3%nat, 2%nat. repeat split; intros; (lia || discriminate).
  - split; [|split; [reflexivity|split; [reflexivity|]]].
    + apply Permutation_refl.
    + exists 2%nat, 3%nat. repeat split; intros; (lia || discriminate).
Qed.

(** ** The refill size and the rate *)

Lemma CalculateRefill_value (rate period : Z) :
  0 < rate <= Int64.max -> 0 < period <= Int64.max ->
  CalculateRefillBytesPerPeriodLocked period rate =
    Ok (if rate * period <=? Int64.max
        then rate * period / kMicrosecondsPerSecond
        else Int64.max / kMicrosecondsPerSecond).
Proof.
  intros Hr Hp. unfold CalculateRefillBytesPerPeriodLocked.
  rewrite (max_div_rate rate Hr). cbn [mbind Res_bind].
  pose proof (guard_exact rate period Hr) as G.
  destruct (Z.ltb_spec (Int64.max / rate) period) as [L|L];
    destruct (Z.leb_spec (rate * period) Int64.max) as [F|F]; try lia.
  - reflexivity.
  - unfold Int64.mul, Int64.fits.
    replace (Int64.min <=? rate * period) with true
      by (symmetry; apply Z.leb_le; unfold Int64.min; nia).
    replace (rate * period <=? Int64.max) with true
      by (symmetry; apply Z.leb_le; lia).
    cbn [andb mbind Res_bind]. unfold Int64.div.
    change (kMicrosecondsPerSecond =? 0) with false. cbv iota.
    rewrite Z.quot_div_nonneg by (unfold kMicrosecondsPerSecond; nia).
    assert (0 <= rate * period / kMicrosecondsPerSecond <= Int64.max) as Hq.
    { split.
      - apply Z.div_pos; unfold kMicrosecondsPerSecond; nia.
      - apply Z.div_le_upper_bound; unfold kMicrosecondsPerSecond; lia. }
    unfold Int64.fits.
    replace (Int64.min <=? rate * period / kMicrosecondsPerSecond) with true
      by (symmetry; apply Z.leb_le; unfold Int64.min; lia).
    replace (rate * period / kMicrosecondsPerSecond <=? Int64.max) with true
      by (symmetry; apply Z.leb_le; lia).
    reflexivity.
Qed.

Lemma CalculateRefill_range (rate period refill : Z) :
  0 < rate <= Int64.max -> 0 < period <= Int64.max ->
  CalculateRefillBytesPerPeriodLocked period rate = Ok refill ->
  0 <= refill <= Int64.max / kMicrosecondsPerSecond.
Proof.
  intros Hr Hp E. rewrite (CalculateRefill_value rate period Hr Hp) in E.
  injection E as <-.
  destruct (Z.leb_spec (rate * period) Int64.max) as [F|F].
  - split.
    + apply Z.div_pos; unfold kMicrosecondsPerSecond; nia.
    + apply Z.div_le_mono; unfold kMicrosecondsPerSecond; lia.
  - unfold Int64.max, kMicrosecondsPerSecond. split; [|lia].
    apply Z.div_pos; lia.
Qed.

(** X2: for a positive rate and period the refill size lies between 0 and
    [INT64_MAX / 1e6], and a higher rate never gives a smaller refill. *)
Theorem refill_size_bounded_and_monotone (rate rate' period : Z) :
  0 < rate <= rate' -> rate' <= Int64.max -> 0 < period <= Int64.max ->
  exists refill refill',
    CalculateRefillBytesPerPeriodLocked period rate = Ok refill
    /\ CalculateRefillBytesPerPeriodLocked period rate' = Ok refill'
    /\ 0 <= refill <= refill'
    /\ refill' <= Int64.max / kMicrosecondsPerSecond.
Proof.
  intros Hr Hr' Hp.
  rewrite (CalculateRefill_value rate period) by lia.
  rewrite (CalculateRefill_value rate' period) by lia.
  eexists _, _. split; [reflexivity|]. split; [reflexivity|].
  assert (rate * period <= rate' * period) as Hle by nia.
  destruct (Z.leb_spec (rate * period) Int64.max) as [F|F];
    destruct (Z.leb_spec (rate' * period) Int64.max) as [F'|F']; try lia.
  - repeat split.
    + apply Z.div_pos; unfold kMicrosecondsPerSecond; nia.
    + apply Z.div_le_mono; unfold kMicrosecondsPerSecond; lia.
    + apply Z.div_le_mono; unfold kMicrosecondsPerSecond; lia.
  - repeat split.
    + apply Z.div_pos; unfold kMicrosecondsPerSecond; nia.
    + apply Z.div_le_mono; unfold kMicrosecondsPerSecond; lia.
    + lia.
  - repeat split; try lia.
    unfold Int64.max, kMicrosecondsPerSecond. apply Z.div_pos; lia.
Qed.

Lemma refill_size_bounded_and_monotone_witness :
  exists refill refill',
    CalculateRefillBytesPerPeriodLocked 100000 10000000 = Ok refill
    /\ CalculateRefillBytesPerPeriodLocked 100000 Int64.max = Ok refill'
    /\ 0 <= refill <= refill'
    /\ refill' <= Int64.max / kMicrosecondsPerSecond.
Proof.
  apply (refill_size_bounded_and_monotone 10000000 Int64.max 100000);
    unfold Int64.max; lia.
Defined.

(** ** Buckets and demand in a turn of the grant loop *)

Lemma bucket_get (s : State) (i : Z) :
  wf s -> 0 <= i < 5 -> arr_get (available_bytes_arr_ s) i = Ok (bucket s i).
Proof.
  intros W Hi. unfold bucket.
  destruct (arr_get_in_range (available_bytes_arr_ s) i) as [a Ha];
    [rewrite (wf_available s W); lia|].
  now rewrite Ha.
Qed.

Lemma bucket_ext (s s' : State) :
  available_bytes_arr_ s' = available_bytes_arr_ s ->
  forall i, bucket s' i = bucket s i.
Proof. intros E i. unfold bucket. now rewrite E. Qed.

Lemma demand_of_ext (s s' : State) :
  reqs s' = reqs s -> forall p, demand_of s' p = demand_of s p.
Proof. intros E p. unfold demand_of. now rewrite E. Qed.

Lemma grant_partially_exact (i : Z) (p : nat) (r : Req) (avail : Z)
    (s : State) :
  wf s -> 0 <= i < 5 -> reqs s !! p = Some r ->
  grant_partially i p r avail s
  = Ok (set_available_bytes_arr (<[Z.to_nat i := 0]> (available_bytes_arr_ s))
          (set_reqs (<[p := mkReq (request_bytes r - avail) (bytes r)]> (reqs s))
             s)).
Proof.
  intros W Hi Hp. unfold grant_partially, req_set_request_bytes, req_get.
  rewrite Hp. st.
  rewrite arr_set_in_range by (rewrite (wf_available s W); lia).
  reflexivity.
Qed.

Lemma grant_fully_exact (i c j : Z) (p : nat) (rest : list nat) (r : Req)
    (avail : Z) (s : State) :
  wf s -> 0 <= i < 5 -> 0 <= c < 5 -> 0 <= j < 4 ->
  reqs s !! p = Some r ->
  exists m,
    grant_fully i c j p rest r avail s
    = Ok (emit (CvSignal p)
            (set_multi_tenant_queue m
               (set_total_bytes_through
                  (<[Z.to_nat j := Int64.add (bytes_through s j) (bytes r)]>
                     (total_bytes_through_ s))
                  (set_reqs (<[p := mkReq 0 (bytes r)]> (reqs s))
                     (set_available_bytes_arr
                        (<[Z.to_nat i := avail - request_bytes r]>
                           (available_bytes_arr_ s)) s))))).
Proof.
  intros W Hi Hc Hj Hp. unfold grant_fully, req_set_request_bytes, req_get.
  rewrite arr_set_in_range by (rewrite (wf_available s W); lia).
  st. rewrite Hp. st. rewrite lookup_insert_eq. st.
  rewrite (bytes_through_get s j W Hj). st.
  rewrite arr_set_in_range by (rewrite (wf_total_bytes_through s W); lia).
  st.
  match goal with
  | |- context [mtq_set c j rest ?s0] =>
      destruct (mtq_set_in_range c j rest s0)
        as (m & Hset & _);
        [exact (wf_mtq_shape s W) | exact Hc | exact Hj |];
        rewrite Hset
  end.
  st. unfold cv_signal, req_get. st. rewrite lookup_insert_eq. st.
  exists m. reflexivity.
Qed.

(** What a turn does to the bucket it draws from and to the demand of the
    records of its queue. *)
Lemma grant_queue_demand (i c j : Z) :
  0 <= i < 5 -> 0 <= c < 5 -> 0 <= j < 4 ->
  forall (q : list nat) (s : State),
    wf s -> queue_at s c j = q -> NoDup q ->
    (forall p, p ∈ q -> 0 < demand_of s p) ->
    0 <= bucket s i ->
    exists s' g,
      grant_queue i c j q s = Ok s'
      /\ queue_turn i c j s s' g
      /\ control s' = control s
      /\ next_refill_us_ s' = next_refill_us_ s
      /\ total_requests_ s' = total_requests_ s
      /\ (forall p, p ∉ q -> reqs s' !! p = reqs s !! p)
      /\ (forall p, p ∈ g -> demand_of s' p = 0)
      /\ (forall p, p ∈ queue_at s' c j ->
            0 < demand_of s' p <= demand_of s p)
      /\ bucket s' i - sumZ (demand_of s') q
         = bucket s i - sumZ (demand_of s) q
      /\ 0 <= bucket s' i <= bucket s i.
Proof.
  intros Hi Hc Hj q. induction q as [|p rest IH];
    intros s W Hq Hnd Hpos Hb.
  - exists s, []. split; [reflexivity|].
    split; [now apply grant_queue_empty|].
    repeat match goal with |- _ /\ _ => split end; try reflexivity; try lia.
    + intros p Hp. inversion Hp.
    + intros p Hp. rewrite Hq in Hp. inversion Hp.
  - apply NoDup_cons in Hnd as [Hnotin Hnd].
    destruct (wf_live s W c j p) as [r Hr]; [rewrite Hq; left|].
    assert (0 < request_bytes r) as Hrpos.
    { specialize (Hpos p ltac:(left)). unfold demand_of in Hpos.
      now rewrite Hr in Hpos. }
    pose proof (bucket_get s i W Hi) as Hav.
    cbn [grant_queue]. unfold req_get at 1. rewrite Hr.
    cbn [mbind Res_bind]. rewrite Hav. cbn [mbind Res_bind].
    destruct (Z.ltb_spec (bucket s i) (request_bytes r)) as [Hlt|Hge].
    + destruct (grant_partially_turn i c j s W Hi p rest r (bucket s i)
                  Hq Hr Hlt) as (s' & E & T).
      rewrite (grant_partially_exact i p r (bucket s i) s W Hi Hr) in E.
      injection E as E. exists s', []. rewrite <- E at 1.
      split; [apply grant_partially_exact; assumption|].
      split; [exact T|].
      assert (reqs s' = <[p := mkReq (request_bytes r - bucket s i) (bytes r)]>
                          (reqs s)) as Hreqs by (now subst s').
      assert (bucket s' i = 0) as Hb'.
      { unfold bucket. subst s'. st.
        rewrite arr_get_insert_eq by (rewrite (wf_available s W); lia).
        reflexivity. }
      assert (forall p', p' <> p -> demand_of s' p' = demand_of s p') as Hsame.
      { intros p' Hne. unfold demand_of. rewrite Hreqs.
        now rewrite lookup_insert_ne by congruence. }
      assert (demand_of s' p = request_bytes r - bucket s i) as Hp'.
      { unfold demand_of. rewrite Hreqs, lookup_insert_eq. reflexivity. }
      assert (demand_of s p = request_bytes r) as Hp0.
      { unfold demand_of. now rewrite Hr. }
      repeat match goal with |- _ /\ _ => split end.
      * now subst s'.
      * now subst s'.
      * now subst s'.
      * intros p' Hp'in. rewrite Hreqs. apply lookup_insert_ne.
        intros <-. apply Hp'in. left.
      * intros p' Hin. inversion Hin.
      * intros p' Hin.
        rewrite <- (app_nil_l (queue_at s' c j)),
          <- (qt_queue _ _ _ _ _ _ T), Hq in Hin.
        destruct (decide (p' = p)) as [->|Hne].
        -- rewrite Hp', Hp0. lia.
        -- rewrite (Hsame p' Hne). specialize (Hpos p' Hin). lia.
      * cbn [sumZ]. rewrite Hb', Hp', Hp0.
        rewrite (sumZ_ext (demand_of s') (demand_of s) rest); [lia|].
        intros p' Hin. apply Hsame. intros ->. contradiction.
      * lia.
      * lia.
    + destruct (grant_fully_turn i c j s W Hi Hc Hj p rest r (bucket s i)
                  Hq Hr)
        as (s1 & E & W1 & Q1 & O1 & S1 & B1 & T1 & TO1 & L1 & R1 & A1).
      destruct (grant_fully_exact i c j p rest r (bucket s i) s W Hi Hc Hj Hr)
        as (m & Ex).
      rewrite E. cbn [mbind Res_bind].
      rewrite Ex in E. injection E as E.
      assert (reqs s1 = <[p := mkReq 0 (bytes r)]> (reqs s)) as Hreqs
        by (now subst s1).
      assert (bucket s1 i = bucket s i - request_bytes r) as Hb1.
      { unfold bucket at 1. subst s1. st.
        rewrite arr_get_insert_eq by (rewrite (wf_available s W); lia).
        reflexivity. }
      assert (control s1 = control s) as C1 by (now subst s1).
      assert (next_refill_us_ s1 = next_refill_us_ s) as N1 by (now subst s1).
      assert (total_requests_ s1 = total_requests_ s) as TR1
        by (now subst s1).
      clear E Ex.
      assert (forall p', p' <> p -> demand_of s1 p' = demand_of s p') as Hsame.
      { intros p' Hne. unfold demand_of. rewrite Hreqs.
        now rewrite lookup_insert_ne by congruence. }
      assert (demand_of s1 p = 0) as Hp1.
      { unfold demand_of. rewrite Hreqs, lookup_insert_eq. reflexivity. }
      assert (demand_of s p = request_bytes r) as Hp0.
      { unfold demand_of. now rewrite Hr. }
      destruct (IH s1 W1 Q1 Hnd) as (s' & g & E' & T' & C' & N' & TR' & U' & G'
                                     & P' & K' & Bd').
      { intros p' Hin. rewrite Hsame by (intros ->; contradiction).
        apply Hpos. now right. }
      { lia. }
      exists s', (p :: g). split; [exact E'|].
      split.
      { destruct T' as [W' Q' O' S' B' T' TO' F' L' R' A'].
        split.
        * exact W'.
        * rewrite Hq. cbn. f_equal. rewrite <- Q1. exact Q'.
        * intros c' j' Hne. rewrite (O' c' j' Hne). now apply O1.
        * rewrite S', S1. cbn. now rewrite <- app_assoc.
        * intros p'. now rewrite B', B1.
        * rewrite T', T1. cbn [foldl]. apply foldl_ext_bytes. exact B1.
        * intros j' Hne. rewrite (TO' j' Hne). now apply TO1.
        * exact F'.
        * now rewrite L'.
        * now rewrite R'.
        * intros i' Hne. rewrite (A' i' Hne). now apply A1. }
      repeat match goal with |- _ /\ _ => split end.
      * now rewrite C'.
      * now rewrite N'.
      * now rewrite TR'.
      * intros p' Hp'in. rewrite U'.
        -- rewrite Hreqs. apply lookup_insert_ne. intros <-. apply Hp'in. left.
        -- intros Hin. apply Hp'in. now right.
      * intros p' Hin. apply elem_of_cons in Hin as [->|Hin].
        -- unfold demand_of. rewrite (U' p Hnotin).
           fold (demand_of s1 p). exact Hp1.
        -- now apply G'.
      * intros p' Hin. specialize (P' p' Hin).
        assert (p' ∈ rest) as Hrest.
        { rewrite <- Q1, (qt_queue _ _ _ _ _ _ T'). apply elem_of_app. now right. }
        rewrite Hsame in P' by (intros ->; contradiction). exact P'.
      * cbn [sumZ]. unfold demand_of at 1. rewrite (U' p Hnotin).
        fold (demand_of s1 p). rewrite Hp1, Hp0.
        rewrite (sumZ_ext (demand_of s1) (demand_of s) rest) in K'.
        -- lia.
        -- intros p' Hin. apply Hsame. intros ->. contradiction.
      * lia.
      * lia.
Qed.

(** ** The invariant in a refill *)

Lemma for_each_inv {I S : Type} (body : I -> S -> Res S) (P : S -> Prop)
    (ok : I -> Prop) :
  (forall i s, ok i -> P s -> exists s', body i s = Ok s' /\ P s') ->
  forall ixs s, Forall ok ixs -> P s ->
    exists s', for_each body ixs s = Ok s' /\ P s'.
Proof.
  intros Hbody ixs. induction ixs as [|i ixs IH]; intros s Hok HP.
  - exists s. split; [reflexivity|assumption].
  - apply Forall_cons in Hok as [Hi Hok].
    destruct (Hbody i s Hi HP) as (s1 & E1 & P1).
    destruct (IH s1 Hok P1) as (s' & E' & P').
    exists s'. cbn [for_each]. rewrite E1. cbn [mbind Res_bind].
    split; assumption.
Qed.

Lemma control_fields (s s' : State) :
  control s' = control s ->
  refill_period_us_ s' = refill_period_us_ s
  /\ rate_bytes_per_sec_ s' = rate_bytes_per_sec_ s
  /\ refill_bytes_per_period_ s' = refill_bytes_per_period_ s
  /\ raw_single_burst_bytes_ s' = raw_single_burst_bytes_ s
  /\ stop_ s' = stop_ s
  /\ requests_to_wait_ s' = requests_to_wait_ s
  /\ queue_ s' = queue_ s.
Proof. unfold control. intros [= -> -> -> -> -> -> ->]. repeat split. Qed.

Lemma grant_queue_Inv (i c j : Z) (s : State) :
  Inv s -> 0 <= i < 5 -> 0 <= c < 5 -> 0 <= j < 4 ->
  exists s' g,
    grant_queue i c j (queue_at s c j) s = Ok s'
    /\ queue_turn i c j s s' g
    /\ Inv s'
    /\ control s' = control s
    /\ next_refill_us_ s' = next_refill_us_ s
    /\ total_requests_ s' = total_requests_ s
    /\ (forall p, p ∈ g -> demand_of s' p = 0)
    /\ bucket s' i - sumZ (demand_of s') (queue_at s c j)
       = bucket s i - sumZ (demand_of s) (queue_at s c j)
    /\ bucket s' i <= bucket s i.
Proof.
  intros I Hi Hc Hj.
  destruct (grant_queue_demand i c j Hi Hc Hj (queue_at s c j) s
              (inv_wf s I) eq_refl (inv_nodup s I c j))
    as (s' & g & E & T & C & N & TR & U & G & P & K & Bd).
  { intros p Hp. eapply inv_queued; eauto. }
  { apply (inv_buckets s I). }
  exists s', g.
  repeat match goal with |- _ /\ _ => split end;
    try assumption; try lia.
  destruct (control_fields s s' C) as (Cp & Cr & Cf & Cb & Cs & Cw & Cq).
  pose proof (qt_queue _ _ _ _ _ _ T) as Q.
  pose proof (qt_other _ _ _ _ _ _ T) as O.
  assert (forall c' j' p, p ∈ queue_at s' c' j' -> p ∈ queue_at s c' j') as Sub.
  { intros c' j' p Hin. destruct (decide ((c', j') = (c, j))) as [[= -> ->]|Hne].
    - rewrite Q. apply elem_of_app. now right.
    - now rewrite <- (O c' j' Hne). }
  split.
  - apply (qt_wf _ _ _ _ _ _ T).
  - rewrite Cp. apply (inv_period s I).
  - rewrite Cr. apply (inv_rate s I).
  - rewrite Cp, Cr, Cf. apply (inv_refill s I).
  - intros i'. destruct (Z.eq_dec i' i) as [->|Hne]; [lia|].
    unfold bucket. rewrite (qt_buckets _ _ _ _ _ _ T i' Hne).
    apply (inv_buckets s I i').
  - rewrite Cq. apply (inv_legacy s I).
  - rewrite Cs, Cw. apply (inv_running s I).
  - intros c' j'. destruct (decide ((c', j') = (c, j))) as [[= -> ->]|Hne].
    + pose proof (inv_nodup s I c j) as Hnd. rewrite Q in Hnd.
      now apply NoDup_app in Hnd as (_ & _ & Hnd).
    + rewrite (O c' j' Hne). apply (inv_nodup s I).
  - intros c1 j1 c2 j2 p H1 H2.
    eapply (inv_once s I); eauto.
  - intros c' j' p Hin.
    destruct (decide ((c', j') = (c, j))) as [[= -> ->]|Hne].
    + specialize (P p Hin). lia.
    + pose proof (Sub _ _ _ Hin) as Hin0.
      unfold demand_of. rewrite U.
      * eapply (inv_queued s I); eauto.
      * intros Hq. destruct (inv_once s I _ _ _ _ _ Hin0 Hq). congruence.
  - intros p r' Hr'.
    destruct (decide (p ∈ queue_at s c j)) as [Hq|Hq].
    + rewrite Q in Hq. apply elem_of_app in Hq as [Hg|Hrest].
      * specialize (G p Hg). unfold demand_of in G. rewrite Hr' in G.
        split; [lia|]. intros; lia.
      * specialize (P p Hrest). unfold demand_of in P at 1 2.
        rewrite Hr' in P. split; [lia|]. intros _. eauto.
    + rewrite (U p Hq) in Hr'.
      destruct (inv_pending s I p r' Hr') as [H0 Hin]. split; [exact H0|].
      intros Hpos. destruct (Hin Hpos) as (c' & j' & Hin').
      exists c', j'. rewrite O; [exact Hin'|].
      intros [= -> ->]. contradiction.
Qed.

Lemma grant_client_Inv (client_order : list Z) (i : Z) (s : State) :
  Permutation client_order clients_upward -> 0 <= i < 5 -> Inv s ->
  exists s',
    grant_client client_order i s = Ok s'
    /\ Inv s'
    /\ control s' = control s
    /\ next_refill_us_ s' = next_refill_us_ s
    /\ total_requests_ s' = total_requests_ s
    /\ (forall i', i' <> i -> bucket s' i' = bucket s i')
    /\ bucket s' i <= bucket s i.
Proof.
  intros P Hi I. destruct (client_order_entry client_order i P Hi)
    as (c & Hord & Hc).
  unfold grant_client.
  destruct (for_each_inv
              (fun j s0 =>
                 c0 ← arr_get client_order i;
                 q ← mtq_get s0 c0 j; grant_queue i c0 j q s0)
              (fun s0 => Inv s0
                         /\ control s0 = control s
                         /\ next_refill_us_ s0 = next_refill_us_ s
                         /\ total_requests_ s0 = total_requests_ s
                         /\ (forall i', i' <> i -> bucket s0 i' = bucket s i')
                         /\ bucket s0 i <= bucket s i)
              (fun j => 0 <= j < 4)) with (ixs := priorities_downward) (s := s)
    as (s' & E & I' & C' & N' & T' & O' & B').
  - intros j s0 Hj (I0 & C0 & N0 & T0 & O0 & B0).
    rewrite Hord. cbn [mbind Res_bind].
    rewrite (mtq_get_in_range s0 c j)
      by (auto using wf_mtq_shape, inv_wf).
    cbn [mbind Res_bind].
    destruct (grant_queue_Inv i c j s0 I0 Hi Hc Hj)
      as (s1 & g & E1 & T1 & I1 & C1 & N1 & TR1 & _ & _ & B1).
    exists s1. split; [exact E1|].
    repeat match goal with |- _ /\ _ => split end; try assumption; try lia.
    + congruence.
    + congruence.
    + intros i' Hne. rewrite <- (O0 i' Hne). unfold bucket.
      now rewrite (qt_buckets _ _ _ _ _ _ T1 i' Hne).
  - exact priorities_downward_in_range.
  - repeat match goal with |- _ /\ _ => split end;
      (assumption || reflexivity || lia).
  - exists s'. repeat match goal with |- _ /\ _ => split end; assumption.
Qed.

Lemma bucket_replicate (refill : Z) (s : State) (i : Z) :
  bucket (set_available_bytes_arr (replicate 5 refill) s) i
  = if (0 <=? i) && (i <? 5) then refill else 0.
Proof.
  unfold bucket, arr_get. st. rewrite length_replicate.
  change (Z.of_nat 5) with 5.
  destruct ((0 <=? i) && (i <? 5)) eqn:E; [|reflexivity].
  apply andb_true_iff in E as [E1%Z.leb_le E2%Z.ltb_lt].
  rewrite lookup_replicate_2 by lia. reflexivity.
Qed.

(** The refill as a whole keeps the invariant. *)
Lemma refill_start_Inv (now : Z) (s : State) :
  Inv s -> Inv (refill_start now s).
Proof.
  intros I.
  assert (0 <= refill_bytes_per_period_ s) as HR0.
  { apply (CalculateRefill_range (rate_bytes_per_sec_ s) (refill_period_us_ s));
      [apply (inv_rate s I) | apply (inv_period s I) | apply (inv_refill s I)]. }
  destruct I as [W Ip Ir If Ib Il Irun Ind Io Iq Ipd].
  split; try assumption.
  - now apply refill_start_wf.
  - intros i. unfold refill_start. rewrite bucket_replicate.
    destruct ((0 <=? i) && (i <? 5)); lia.
Qed.

Lemma RefillBytesAndGrantRequestsLocked_Inv (now : Z) (client_order : list Z)
    (s : State) :
  Inv s -> Permutation client_order clients_upward ->
  exists s',
    RefillBytesAndGrantRequestsLocked now client_order s = Ok s'
    /\ Inv s'
    /\ control s' = control s
    /\ next_refill_us_ s' = Int64.add now (refill_period_us_ s)
    /\ total_requests_ s' = total_requests_ s
    /\ (forall i, bucket s' i <= refill_bytes_per_period_ s).
Proof.
  intros I P. unfold RefillBytesAndGrantRequestsLocked. cbv zeta.
  rewrite reset_buckets by (st; apply (wf_available s (inv_wf s I))).
  cbn [mbind Res_bind].
  set (R := refill_bytes_per_period_
              (set_next_refill_us (Int64.add now (refill_period_us_ s)) s)).
  assert (R = refill_bytes_per_period_ s) as HR by reflexivity.
  set (s1 := set_available_bytes_arr (replicate 5 R)
               (set_next_refill_us (Int64.add now (refill_period_us_ s)) s)).
  assert (0 <= R) as HR0.
  { rewrite HR.
    apply (CalculateRefill_range (rate_bytes_per_sec_ s) (refill_period_us_ s));
      [apply (inv_rate s I) | apply (inv_period s I) | apply (inv_refill s I)]. }
  assert (Inv s1) as I1.
  { destruct I as [W Ip Ir If Ib Il Irun Ind Io Iq Ipd].
    split; try assumption.
    - destruct W. subst s1. split; unfold queue_at in *; st; try assumption.
      now rewrite length_replicate.
    - intros i. subst s1. rewrite bucket_replicate.
      destruct ((0 <=? i) && (i <? 5)); lia. }
  destruct (for_each_inv (grant_client client_order)
              (fun s0 => Inv s0
                         /\ control s0 = control s
                         /\ next_refill_us_ s0 = Int64.add now (refill_period_us_ s)
                         /\ total_requests_ s0 = total_requests_ s
                         /\ (forall i, bucket s0 i <= R))
              (fun i => 0 <= i < 5)) with (ixs := clients_upward) (s := s1)
    as (s' & E & I' & C' & N' & T' & B').
  - intros i s0 Hi (I0 & C0 & N0 & T0 & B0).
    destruct (grant_client_Inv client_order i s0 P Hi I0)
      as (s2 & E2 & I2 & C2 & N2 & T2 & O2 & B2).
    exists s2. split; [exact E2|].
    repeat match goal with |- _ /\ _ => split end; try assumption; try lia.
    + congruence.
    + congruence.
    + intros i'. destruct (Z.eq_dec i' i) as [->|Hne].
      * specialize (B0 i). lia.
      * rewrite (O2 i' Hne). apply B0.
  - apply Forall_forall. intros i Hi. now apply clients_upward_elem.
  - repeat match goal with |- _ /\ _ => split end; try reflexivity; try assumption.
    intros i. subst s1. rewrite bucket_replicate.
    destruct ((0 <=? i) && (i <? 5)); lia.
  - exists s'. rewrite <- HR.
    repeat match goal with |- _ /\ _ => split end; assumption.
Qed.

(** ** What a request changes on entry *)

Lemma arr_set_Ok {A : Type} (a a' : list A) (i : Z) (x : A) :
  arr_set a i x = Ok a' ->
  a' = <[Z.to_nat i := x]> a /\ 0 <= i < Z.of_nat (length a).
Proof.
  unfold arr_set.
  destruct (Z.leb_spec 0 i), (Z.ltb_spec i (Z.of_nat (length a)));
    cbn; intros [= <-]; split; (reflexivity || lia).
Qed.

Lemma mtq_set_Ok (c j : Z) (q : list nat) (s s' : State) :
  mtq_set c j q s = Ok s' -> exists m, s' = set_multi_tenant_queue m s.
Proof.
  unfold mtq_set.
  destruct (arr_get (multi_tenant_queue_ s) c) as [row|]; [|discriminate].
  cbn [mbind Res_bind].
  destruct (arr_set row j q) as [row'|]; [|discriminate].
  cbn [mbind Res_bind].
  destruct (arr_set (multi_tenant_queue_ s) c row') as [m|]; [|discriminate].
  cbn [mbind Res_bind]. intros [= <-]. eauto.
Qed.

Ltac bind_inv H :=
  match type of H with
  | @mbind _ _ _ _ _ ?m = Ok _ =>
      let E := fresh "E" in
      destruct m eqn:E; [cbn [mbind Res_bind] in H | discriminate H]
  end.

(** The client whose bucket and queues a request uses. *)
Lemma Request_enter_frame (tm_client_id bytes : Z) (pri : IOPriority)
    (req : nat) (s : State) (e : Entered) (s' : State) :
  tm_client_id <> kClientInvalid ->
  stop_ s = false ->
  Request_enter tm_client_id bytes pri req s = Ok (e, s') ->
  let client := if tm_client_id =? -1 then 1 else tm_client_id in
  let charge := if 0 <? bucket s client
                then Z.min (bucket s client) (Z.max 0 bytes) else 0 in
  control s' = control s
  /\ next_refill_us_ s' = next_refill_us_ s
  /\ wait_until_refill_pending_ s' = wait_until_refill_pending_ s
  /\ (forall i, i <> client -> bucket s' i = bucket s i)
  /\ bucket s' client = bucket s client - charge
  /\ bytes_through s' (pri_ix pri)
     = (if 0 <? bucket s client
        then Int64.add (bytes_through s (pri_ix pri)) charge
        else bytes_through s (pri_ix pri))
  /\ (e = Returned <-> Z.max 0 bytes - charge = 0).
Proof.
  intros Hinv Hstop H. unfold kClientInvalid in Hinv. cbv zeta.
  unfold Request_enter in H.
  destruct (Z.eqb_spec tm_client_id (-2)) as [?|_]; [contradiction|].
  set (client := if tm_client_id =? -1 then 1 else tm_client_id) in *.
  bind_inv H. bind_inv H. st. rewrite Hstop in H.
  bind_inv H. bind_inv H. st.
  destruct (arr_get (available_bytes_arr_ s) client) as [avail|] eqn:Eav;
    [|discriminate H].
  cbn [mbind Res_bind] in H.
  assert (bucket s client = avail) as Hb by (unfold bucket; now rewrite Eav).
  rewrite Hb.
  destruct (Z.ltb_spec 0 avail) as [Hpos|Hnpos].
  - destruct (arr_get (total_bytes_through_ s) (pri_ix pri)) as [t|] eqn:Et;
      [|discriminate H].
    cbn [mbind Res_bind] in H. st.
    destruct (arr_set (total_bytes_through_ s) (pri_ix pri)
                (Int64.add t (Z.min avail (Z.max 0 bytes)))) as [tbt|] eqn:Etbt;
      [|discriminate H].
    cbn [mbind Res_bind] in H. st.
    destruct (arr_set (available_bytes_arr_ s) client
                (avail - Z.min avail (Z.max 0 bytes))) as [av|] eqn:Eavs;
      [|discriminate H].
    cbn [mbind Res_bind] in H. st.
    apply arr_set_Ok in Etbt as [-> Rt]. apply arr_set_Ok in Eavs as [-> Ra].
    assert (bytes_through s (pri_ix pri) = t) as Ht
      by (unfold bytes_through; now rewrite Et).
    destruct (Z.eqb_spec (Z.max 0 bytes - Z.min avail (Z.max 0 bytes)) 0)
      as [Zr|NZr].
    + injection H as <- <-. unfold bucket, bytes_through, control. st. rewrite ?Hstop.
      repeat match goal with |- _ /\ _ => split end; try reflexivity.
      * intros i Hne. now rewrite arr_get_insert_other by lia.
      * rewrite arr_get_insert_eq by lia. reflexivity.
      * rewrite arr_get_insert_eq by lia. rewrite Et. reflexivity.
      * split; intros; try reflexivity; try discriminate; lia.
    + bind_inv H. bind_inv H. injection H as <- <-.
      match goal with
      | Hset : mtq_set _ _ _ _ = Ok _ |- _ =>
          apply mtq_set_Ok in Hset as [m ->]
      end.
      unfold bucket, bytes_through, control. st. rewrite ?Hstop.
      repeat match goal with |- _ /\ _ => split end; try reflexivity.
      * intros i Hne. now rewrite arr_get_insert_other by lia.
      * rewrite arr_get_insert_eq by lia. reflexivity.
      * rewrite arr_get_insert_eq by lia. rewrite Et. reflexivity.
      * split; intros; try reflexivity; try discriminate; lia.
  - st. rewrite Z.sub_0_r.
    destruct (Z.eqb_spec (Z.max 0 bytes) 0) as [Zr|NZr].
    + injection H as <- <-. unfold bucket, bytes_through, control. st. rewrite ?Hstop, ?Eav.
      repeat match goal with |- _ /\ _ => split end; try reflexivity.
      split; intros; try reflexivity; try discriminate; lia.
    + bind_inv H. bind_inv H. injection H as <- <-.
      match goal with
      | Hset : mtq_set _ _ _ _ = Ok _ |- _ =>
          apply mtq_set_Ok in Hset as [m ->]
      end.
      unfold bucket, bytes_through, control. st. rewrite ?Hstop, ?Eav.
      repeat match goal with |- _ /\ _ => split end; try reflexivity.
      split; intros; try reflexivity; try discriminate; lia.
Qed.

Lemma Request_enter_max (tm_client_id bytes : Z) (pri : IOPriority)
    (req : nat) (s : State) :
  Request_enter tm_client_id (Z.max 0 bytes) pri req s
  = Request_enter tm_client_id bytes pri req s.
Proof.
  unfold Request_enter. rewrite (Z.max_r 0 (Z.max 0 bytes)) by lia.
  reflexivity.
Qed.

Lemma Request_enter_Inv (tm_client_id bytes : Z) (pri : IOPriority)
    (req : nat) (s : State) (e : Entered) (s' : State) :
  Inv s ->
  0 <= tm_client_id < kTGNumClients \/ tm_client_id = kClientInvalid ->
  pri <> IO_TOTAL ->
  reqs s !! req = None ->
  Request_enter tm_client_id bytes pri req s = Ok (e, s') ->
  Inv s'.
Proof.
  intros I [Hc| ->] Hp Hfresh H.
  2: { rewrite Request_enter_invalid_client in H. now injection H as _ <-. }
  unfold kTGNumClients in Hc.
  pose proof (inv_running s I) as [Hstop Hrtw].
  assert (tm_client_id <> kClientInvalid) as Hni
    by (unfold kClientInvalid; lia).
  destruct (Request_enter_frame _ _ _ _ _ _ _ Hni Hstop H)
    as (C & _ & _ & Bo & Bc & _ & _).
  destruct (Z.eqb_spec tm_client_id (-1)) as [?|_]; [lia|].
  rewrite <- Request_enter_max in H.
  destruct (Request_enter_turn tm_client_id (Z.max 0 bytes) pri req s
              (inv_wf s I) Hc Hp Hstop ltac:(lia))
    as (e0 & s0 & residual & E & W' & _ & Hres & _ & _ & _ & H0 & H1).
  rewrite E in H. injection H as -> ->.
  destruct (control_fields s s' C) as (Cp & Cr & Cf & Cb & Cs & Cw & Cq).
  assert (forall c j p, p ∈ queue_at s c j -> p <> req) as Hold.
  { intros c j p Hin ->.
    destruct (wf_live s (inv_wf s I) c j req Hin) as [r Hr]. congruence. }
  assert (forall i, 0 <= bucket s' i) as Hbuckets.
  { intros i. destruct (Z.eq_dec i tm_client_id) as [->|Hne].
    - rewrite Bc. pose proof (inv_buckets s I tm_client_id).
      destruct (Z.ltb_spec 0 (bucket s tm_client_id)); lia.
    - rewrite (Bo i Hne). apply (inv_buckets s I). }
  destruct (Z.eq_dec residual 0) as [Zr|NZr].
  - destruct (H0 Zr) as (_ & R & Q).
    assert (forall c j, queue_at s' c j = queue_at s c j) as Hq
      by (intros; unfold queue_at; now rewrite Q).
    destruct I as [W Ip Ir If Ib Il Irun Ind Io Iq Ipd].
    split; try assumption.
    + now rewrite Cp.
    + now rewrite Cr.
    + now rewrite Cp, Cr, Cf.
    + now rewrite Cq.
    + now rewrite Cs, Cw.
    + intros c j. rewrite Hq. apply Ind.
    + intros c j c' j' p. rewrite !Hq. apply Io.
    + intros c j p. rewrite Hq, (demand_of_ext s s' R). apply Iq.
    + intros p r. rewrite R. intros Hr.
      destruct (Ipd p r Hr) as [? Hin]. split; [assumption|].
      intros Hpos. destruct (Hin Hpos) as (c & j & ?).
      exists c, j. now rewrite Hq.
  - destruct (H1 NZr) as (_ & R & Q & O).
    assert (forall c j p,
              p ∈ queue_at s' c j <->
              p ∈ queue_at s c j
              \/ (p = req /\ c = tm_client_id /\ j = pri_ix pri)) as Hmem.
    { intros c j p.
      destruct (decide ((c, j) = (tm_client_id, pri_ix pri)))
        as [[= -> ->]|Hne].
      - rewrite Q, elem_of_app, list_elem_of_singleton. tauto.
      - rewrite (O c j Hne). split; [tauto|].
        intros [?|(_ & -> & ->)]; [assumption|congruence]. }
    assert (forall p, p <> req -> demand_of s' p = demand_of s p) as Hdem.
    { intros p Hne. unfold demand_of. rewrite R.
      now rewrite lookup_insert_ne by congruence. }
    assert (demand_of s' req = residual) as Hdreq.
    { unfold demand_of. rewrite R, lookup_insert_eq. reflexivity. }
    destruct I as [W Ip Ir If Ib Il Irun Ind Io Iq Ipd].
    split; try assumption.
    + now rewrite Cp.
    + now rewrite Cr.
    + now rewrite Cp, Cr, Cf.
    + now rewrite Cq.
    + now rewrite Cs, Cw.
    + intros c j.
      destruct (decide ((c, j) = (tm_client_id, pri_ix pri)))
        as [[= -> ->]|Hne].
      * rewrite Q. apply NoDup_app. split; [apply Ind|]. split.
        -- intros p Hin ->%list_elem_of_singleton. eapply Hold; eauto.
        -- apply NoDup_singleton.
      * rewrite (O c j Hne). apply Ind.
    + intros c j c' j' p [H1'|(-> & -> & ->)]%Hmem [H2'|(E2 & -> & ->)]%Hmem.
      * eapply Io; eauto.
      * subst p. exfalso. eapply Hold; eauto.
      * exfalso. eapply Hold; eauto.
      * split; reflexivity.
    + intros c j p [Hin|(-> & -> & ->)]%Hmem.
      * rewrite Hdem by (eapply Hold; eauto). eapply Iq; eauto.
      * rewrite Hdreq. lia.
    + intros p r Hr. rewrite R in Hr.
      destruct (decide (p = req)) as [->|Hne].
      * rewrite lookup_insert_eq in Hr. injection Hr as <-. cbn.
        split; [lia|]. intros _. exists tm_client_id, (pri_ix pri).
        apply Hmem. right. repeat split.
      * rewrite lookup_insert_ne in Hr by congruence.
        destruct (Ipd p r Hr) as [? Hin]. split; [assumption|].
        intros Hpos. destruct (Hin Hpos) as (c & j & ?).
        exists c, j. apply Hmem. now left.
Qed.

(** ** The invariant in the other steps *)

Lemma Inv_ext (s s' : State) : accounts s' = accounts s -> Inv s -> Inv s'.
Proof.
  unfold accounts. intros [= Cp Cr Cf Cs Cw Cq A TR TB CP M R] I.
  assert (forall c j, queue_at s' c j = queue_at s c j) as Hq
    by (intros; unfold queue_at; now rewrite M).
  destruct I as [W Ip Ir If Ib Il Irun Ind Io Iq Ipd].
  split.
  - destruct W as [W1 W2 W3 W4 W5 W6 W7 W8].
    split; rewrite ?A, ?TR, ?TB, ?CP, ?M, ?Cq; try assumption.
    intros c j p. rewrite Hq, R. apply W8.
  - now rewrite Cp.
  - now rewrite Cr.
  - now rewrite Cp, Cr, Cf.
  - intros i. rewrite (bucket_ext s s' A). apply Ib.
  - now rewrite Cq.
  - now rewrite Cs, Cw.
  - intros c j. rewrite Hq. apply Ind.
  - intros c j c' j' p. rewrite !Hq. apply Io.
  - intros c j p. rewrite Hq, (demand_of_ext s s' R). apply Iq.
  - intros p r. rewrite R. intros Hr.
    destruct (Ipd p r Hr) as [? Hin]. split; [assumption|].
    intros Hpos. destruct (Hin Hpos) as (c & j & ?).
    exists c, j. now rewrite Hq.
Qed.

Lemma Request_duty_Inv (now_mono now_clock : Z) (client_order : list Z)
    (s : State) (d : Duty) (s' : State) :
  Inv s -> Permutation client_order clients_upward ->
  Request_duty now_mono now_clock client_order s = Ok (d, s') -> Inv s'.
Proof.
  intros I P. unfold Request_duty. cbv zeta.
  destruct (0 <? Int64.sub (next_refill_us_ s) now_mono).
  - destruct (wait_until_refill_pending_ s); intros [= <- <-].
    + exact I.
    + eapply Inv_ext; [|exact I]. reflexivity.
  - destruct (RefillBytesAndGrantRequestsLocked_Inv now_mono client_order s I P)
      as (s1 & E & I1 & _).
    rewrite E. cbn [mbind Res_bind]. now intros [= <- <-].
Qed.

Lemma Request_iteration_end_Inv (req : nat) (s : State) (again : bool)
    (s' : State) :
  Inv s -> Request_iteration_end req s = Ok (again, s') -> Inv s'.
Proof.
  intros I. unfold Request_iteration_end.
  destruct (req_get s req) as [r|]; [|discriminate]. cbn [mbind Res_bind].
  destruct (request_bytes r =? 0).
  - rewrite (signal_front_requests_fronts s (inv_wf s I)).
    cbn [mbind Res_bind].
    destruct (req_get _ req); [|discriminate]. cbn [mbind Res_bind].
    intros [= _ <-]. eapply Inv_ext; [|exact I]. reflexivity.
  - cbn [mbind Res_bind].
    destruct (req_get s req); [|discriminate]. cbn [mbind Res_bind].
    now intros [= _ <-].
Qed.

Lemma Request_leave_Inv (req : nat) (r : Req) (s : State) :
  Inv s -> reqs s !! req = Some r -> request_bytes r = 0 ->
  Inv (Request_leave req s).
Proof.
  intros I Hr H0. unfold Request_leave.
  destruct (inv_running s I) as [Hstop _]. rewrite Hstop.
  assert (forall c j p, p ∈ queue_at s c j -> p <> req) as Hq.
  { intros c j p Hin ->. pose proof (inv_queued s I c j req Hin) as Hpos.
    unfold demand_of in Hpos. rewrite Hr in Hpos. lia. }
  destruct I as [W Ip Ir If Ib Il Irun Ind Io Iq Ipd].
  split; try assumption.
  - destruct W as [W1 W2 W3 W4 W5 W6 W7 W8].
    split; try assumption.
    intros c j p Hin. change (is_Some (delete req (reqs s) !! p)).
    rewrite lookup_delete_ne by (intros ->; eapply Hq; eauto).
    eapply W8; eauto.
  - intros c j p Hin. unfold demand_of. st.
    rewrite lookup_delete_ne by (intros ->; eapply Hq; eauto).
    eapply Iq; eauto.
  - intros p r'. st. intros Hr'.
    destruct (decide (p = req)) as [->|Hne].
    + rewrite lookup_delete_eq in Hr'. discriminate.
    + rewrite lookup_delete_ne in Hr' by congruence. now apply Ipd.
Qed.

Lemma SetBytesPerSecond_Inv (n : Z) (s s' : State) :
  Inv s -> 0 < n <= Int64.max -> SetBytesPerSecond n s = Ok s' -> Inv s'.
Proof.
  intros I Hn. unfold SetBytesPerSecond.
  destruct (CalculateRefillBytesPerPeriodLocked (refill_period_us_ s) n)
    as [refill|] eqn:E; [|discriminate].
  cbn [mbind Res_bind]. intros [= <-].
  destruct I as [W Ip Ir If Ib Il Irun Ind Io Iq Ipd].
  split; try assumption.
  destruct W. split; assumption.
Qed.

Lemma SetSingleBurstBytes_Inv (n : Z) (s : State) :
  Inv s -> Inv (snd (SetSingleBurstBytes n s)).
Proof.
  intros I. unfold SetSingleBurstBytes.
  destruct (n <? 0); [exact I|].
  eapply Inv_ext; [|exact I]. reflexivity.
Qed.

(** ** A new limiter *)

Lemma queue_in_replicate_empty (c j : Z) :
  queue_in (replicate 5 (replicate 4 [])) c j = [].
Proof.
  unfold queue_in.
  destruct (arr_get _ c) as [row|] eqn:E; cbn [mbind Res_bind];
    [|reflexivity].
  apply arr_get_Ok in E as [_ E]. apply lookup_replicate in E as [-> _].
  destruct (arr_get _ j) as [q|] eqn:E'; [|reflexivity].
  apply arr_get_Ok in E' as [_ E'].
  now apply lookup_replicate in E' as [-> _].
Qed.

Lemma half_rate (rate : Z) :
  0 < rate <= Int64.max -> Int64.div rate 2 = Ok (rate / 2).
Proof.
  intros Hr. unfold Int64.div. change (2 =? 0) with false. cbv iota.
  rewrite Z.quot_div_nonneg by lia.
  assert (0 <= rate / 2 <= Int64.max) as Hq.
  { split; [apply Z.div_pos; lia|]. apply Z.div_le_upper_bound; lia. }
  unfold Int64.fits.
  replace (Int64.min <=? rate / 2) with true
    by (symmetry; apply Z.leb_le; unfold Int64.min; lia).
  replace (rate / 2 <=? Int64.max) with true
    by (symmetry; apply Z.leb_le; lia).
  reflexivity.
Qed.

Lemma CalculateRefill_zero_rate (period : Z) :
  CalculateRefillBytesPerPeriodLocked period 0 = Undefined.
Proof. reflexivity. Qed.

(** The rate a new limiter starts with. *)
Lemma new_limiter (rate period : Z) (auto_tuned : bool) (burst now : Z)
    (s : State) :
  0 < rate <= Int64.max -> 0 < period <= Int64.max ->
  MultiTenantRateLimiter_new rate period auto_tuned burst now = Ok s ->
  let rate' := if auto_tuned then rate / 2 else rate in
  0 < rate' <= Int64.max
  /\ CalculateRefillBytesPerPeriodLocked period rate'
     = Ok (refill_bytes_per_period_ s)
  /\ s = mkState period rate' (refill_bytes_per_period_ s) burst false 0 now
           false (replicate 5 0) (replicate 4 0) (replicate 4 0)
           (replicate 5 0) 0 (replicate 4 [])
           (replicate 5 (replicate 4 [])) ∅ [].
Proof.
  intros Hr Hp. cbv zeta. unfold MultiTenantRateLimiter_new.
  assert ((if auto_tuned then Int64.div rate 2 else Ok rate)
          = Ok (if auto_tuned then rate / 2 else rate)) as ->
    by (destruct auto_tuned; [now apply half_rate|reflexivity]).
  cbn [mbind Res_bind].
  set (rate' := if auto_tuned then rate / 2 else rate).
  assert (0 <= rate' <= Int64.max) as Hr'.
  { subst rate'. destruct auto_tuned; [|lia].
    split; [apply Z.div_pos; lia|]. apply Z.div_le_upper_bound; lia. }
  destruct (Z.eq_dec rate' 0) as [->|Hne].
  { rewrite CalculateRefill_zero_rate. discriminate. }
  destruct (CalculateRefillBytesPerPeriodLocked period rate') as [refill|]
    eqn:E; [|discriminate].
  cbn [mbind Res_bind]. intros [= <-]. st.
  split; [lia|]. split; reflexivity.
Qed.

Lemma new_limiter_Inv (rate period : Z) (auto_tuned : bool) (burst now : Z)
    (s : State) :
  0 < rate <= Int64.max -> 0 < period <= Int64.max ->
  MultiTenantRateLimiter_new rate period auto_tuned burst now = Ok s ->
  Inv s.
Proof.
  intros Hr Hp H.
  destruct (new_limiter rate period auto_tuned burst now s Hr Hp H)
    as (Hr' & E & ->).
  assert (forall c j r,
            queue_at (mkState period (if auto_tuned then rate / 2 else rate)
                        r burst false 0 now false (replicate 5 0)
                        (replicate 4 0) (replicate 4 0) (replicate 5 0) 0
                        (replicate 4 []) (replicate 5 (replicate 4 [])) ∅ [])
              c j = []) as Hq
    by (intros; apply queue_in_replicate_empty).
  split; st; try assumption; try reflexivity.
  - split; try reflexivity.
    + cbn. repeat constructor.
    + intros c j p. rewrite Hq. inversion 1.
  - intros i. unfold bucket, arr_get. st.
    destruct ((0 <=? i) && (i <? Z.of_nat (length (replicate 5 0)))) eqn:B;
      [|lia].
    destruct (replicate 5 0 !! Z.to_nat i) as [a|] eqn:L; [|lia].
    apply lookup_replicate in L as [-> _]. lia.
  - split; reflexivity.
  - intros c j. rewrite Hq. constructor.
  - intros c j c' j' p. rewrite Hq. inversion 1.
  - intros c j p. rewrite Hq. inversion 1.
  - intros p r. rewrite lookup_empty. discriminate.
Qed.

(** ** Every state of a running limiter *)

Lemma step_Inv (s s' : State) : Inv s -> step s s' -> Inv s'.
Proof.
  intros I [tm bytes pri req e s1 Hc Hp Hf H
           |nm nc order d s1 P H
           |
           |req again s1 H
           |req r Hr H0
           |n s1 Hn H
           |n].
  - eapply Request_enter_Inv; eauto.
  - eapply Request_duty_Inv; eauto.
  - eapply Inv_ext; [|exact I]. reflexivity.
  - eapply Request_iteration_end_Inv; eauto.
  - eapply Request_leave_Inv; eauto.
  - eapply SetBytesPerSecond_Inv; eauto.
  - now apply SetSingleBurstBytes_Inv.
Qed.

Lemma reachable_Inv (s : State) : reachable s -> Inv s.
Proof.
  induction 1 as [rate period auto burst now s Hr Hp H|s s' _ IH Hstep].
  - exact (new_limiter_Inv rate period auto burst now s Hr Hp H).
  - eapply step_Inv; eauto.
Qed.

Lemma limiter_10MBps_reachable : reachable limiter_10MBps.
Proof.
  apply (reachable_new 10000000 100000 false 0 0);
    [unfold Int64.max; lia | unfold Int64.max; lia | reflexivity].
Qed.

Ltac enter_step s0 c b pri r :=
  apply (reachable_step s0);
  [|apply (step_enter s0 c b pri r Enqueued);
    [left; unfold kTGNumClients; lia | discriminate
    | vm_compute; reflexivity | vm_compute; reflexivity]].

Lemma queued_backlog_reachable : reachable queued_backlog.
Proof.
  unfold queued_backlog.
  set (s1 := entered (Request_enter 3 500000 IO_LOW 1 limiter_10MBps)).
  set (s2 := entered (Request_enter 3 500000 IO_USER 2 s1)).
  set (s3 := entered (Request_enter 3 500000 IO_MID 3 s2)).
  enter_step s3 0 700 IO_HIGH 4%nat.
  enter_step s2 3 500000 IO_MID 3%nat.
  enter_step s1 3 500000 IO_USER 2%nat.
  enter_step limiter_10MBps 3 500000 IO_LOW 1%nat.
  exact limiter_10MBps_reachable.
Qed.

Lemma two_tenant_backlog_reachable : reachable two_tenant_backlog.
Proof.
  unfold two_tenant_backlog.
  set (s1 := entered (Request_enter 3 300000 IO_LOW 1 limiter_10MBps)).
  set (s2 := entered (Request_enter 3 300000 IO_MID 2 s1)).
  set (s3 := entered (Request_enter 3 300000 IO_USER 3 s2)).
  set (s4 := entered (Request_enter 3 300000 IO_USER 4 s3)).
  set (s5 := entered (Request_enter 0 600000 IO_USER 5 s4)).
  enter_step s5 0 600000 IO_USER 6%nat.
  enter_step s4 0 600000 IO_USER 5%nat.
  enter_step s3 3 300000 IO_USER 4%nat.
  enter_step s2 3 300000 IO_USER 3%nat.
  enter_step s1 3 300000 IO_MID 2%nat.
  enter_step limiter_10MBps 3 300000 IO_LOW 1%nat.
  exact limiter_10MBps_reachable.
Qed.

(** The backlog when the grant loop of a refill starts. *)
Lemma two_tenant_backlog_refill_start_Inv :
  Inv (refill_start 100000 two_tenant_backlog).
Proof.
  apply refill_start_Inv, reachable_Inv, two_tenant_backlog_reachable.
Qed.

(** ** Each byte is counted once *)

(** C10: a request adds its [bytes] to the ledger of its priority.  On entry
    the part charged at once, the smaller of the bucket and [bytes] if the
    bucket holds anything, is added to [total_bytes_through_[pri]]; the call
    returns exactly when nothing is left, and otherwise the record queued
    holds what is left in [bytes] and in [request_bytes].  A turn of the
    grant loop adds to [total_bytes_through_[j]] the [bytes] fields of the
    records it pops and signals, one 64-bit addition for each in queue order,
    and nothing for a record it leaves queued; it changes no [bytes] field,
    and it leaves a record queued only with the bucket empty.  In a state
    of a running limiter the records it pops are the ones granted in full,
    left with no demand, and a record it leaves queued has demand left.  A
    whole refill keeps every ledger.  So what is added to
    [total_bytes_through_[pri]] for a request, from the call to its grant,
    is its [bytes] argument.  The counter is an [int64_t]: the additions are
    64-bit additions and the ledger is the 64-bit value of the sum. *)
Theorem granted_bytes_counted_once :
  (forall c bytes pri req s,
     wf s -> 0 <= c < kTGNumClients -> pri <> IO_TOTAL -> stop_ s = false ->
     0 <= bytes -> reqs s !! req = None ->
     exists e s' residual,
       Request_enter c bytes pri req s = Ok (e, s')
       /\ wf s'
       /\ residual
          = bytes - (if 0 <? bucket s c then Z.min (bucket s c) bytes else 0)
       /\ 0 <= residual <= bytes
       /\ bytes_through s' (pri_ix pri)
          = (if 0 <? bucket s c
             then Int64.add (bytes_through s (pri_ix pri)) (bytes - residual)
             else bytes_through s (pri_ix pri))
       /\ (e = Returned <-> residual = 0)
       /\ (e = Returned -> reqs s' = reqs s)
       /\ (e = Enqueued ->
             reqs s' = <[req := mkReq residual residual]> (reqs s)
             /\ queue_at s' c (pri_ix pri)
                = queue_at s c (pri_ix pri) ++ [req])
       /\ ledger s' (pri_ix pri) = Int64.add (ledger s (pri_ix pri)) bytes
       /\ (forall j, j <> pri_ix pri -> ledger s' j = ledger s j))
  /\ (forall i c j s,
        wf s -> 0 <= i < kTGNumClients -> 0 <= c < kTGNumClients ->
        0 <= j < pri_ix IO_TOTAL ->
        exists s' g,
          grant_queue i c j (queue_at s c j) s = Ok s'
          /\ queue_at s c j = g ++ queue_at s' c j
          /\ signals s' = signals s ++ (CvSignal <$> g)
          /\ bytes_through s' j
             = foldl (fun t p => Int64.add t (bytes_of s p))
                 (bytes_through s j) g
          /\ (forall j', j' <> j -> bytes_through s' j' = bytes_through s j')
          /\ (forall p, bytes_of s' p = bytes_of s p)
          /\ (forall p rest, queue_at s' c j = p :: rest ->
                bucket s' i = 0 /\ 0 < demand_of s' p))
  /\ (forall i c j s,
        Inv s -> 0 <= i < kTGNumClients -> 0 <= c < kTGNumClients ->
        0 <= j < pri_ix IO_TOTAL ->
        exists s' g,
          grant_queue i c j (queue_at s c j) s = Ok s'
          /\ queue_at s c j = g ++ queue_at s' c j
          /\ bytes_through s' j
             = foldl (fun t p => Int64.add t (bytes_of s p))
                 (bytes_through s j) g
          /\ (forall p, p ∈ g -> demand_of s' p = 0)
          /\ (forall p, p ∈ queue_at s' c j ->
                0 < demand_of s' p <= demand_of s p)
          /\ bucket s i - bucket s' i
             = sumZ (demand_of s) (queue_at s c j)
               - sumZ (demand_of s') (queue_at s c j))
  /\ (forall now client_order s,
        wf s -> Permutation client_order clients_upward ->
        exists s',
          RefillBytesAndGrantRequestsLocked now client_order s = Ok s'
          /\ wf s'
          /\ (forall j, ledger s' j = ledger s j)
          /\ (forall p, bytes_of s' p = bytes_of s p)).
Proof.
  split; [|split; [|split]].
  - intros c bytes pri req s W Hc. now apply Request_enter_ledger.
  - intros i c j s W Hi Hc Hj.
    destruct (grant_queue_turn i c j Hi Hc Hj _ s W eq_refl)
      as (s' & g & E & T).
    exists s', g. destruct T as [W' Q O S B T TO F L R A].
    repeat match goal with |- _ /\ _ => split end; try assumption.
    intros p rest Hq. destruct (F p rest Hq) as (Hb & r & Hr & Hpos).
    unfold bucket, demand_of. rewrite Hb, Hr. split; [reflexivity|exact Hpos].
  - intros i c j s I Hi Hc Hj.
    destruct (grant_queue_demand i c j Hi Hc Hj (queue_at s c j) s
                (inv_wf s I) eq_refl (inv_nodup s I c j))
      as (s' & g & E & T & _ & _ & _ & _ & G & P & K & _).
    { intros p Hp. eapply inv_queued; eauto. }
    { apply (inv_buckets s I). }
    exists s', g.
    repeat match goal with |- _ /\ _ => split end; try assumption; try lia.
    + apply (qt_queue _ _ _ _ _ _ T).
    + apply (qt_through _ _ _ _ _ _ T).
  - intros now client_order s W P.
    destruct (RefillBytesAndGrantRequestsLocked_kept now client_order s W P)
      as (s' & E & W' & L & B & _).
    exists s'. repeat match goal with |- _ /\ _ => split end; assumption.
Qed.

Lemma granted_bytes_counted_once_witness :
  (exists e s' residual,
     Request_enter 0 1500000 IO_USER 1 limiter_refilled = Ok (e, s')
     /\ wf s'
     /\ residual
        = 1500000 - (if 0 <? bucket limiter_refilled 0
                     then Z.min (bucket limiter_refilled 0) 1500000 else 0)
     /\ 0 <= residual <= 1500000
     /\ bytes_through s' (pri_ix IO_USER)
        = (if 0 <? bucket limiter_refilled 0
           then Int64.add (bytes_through limiter_refilled (pri_ix IO_USER))
                  (1500000 - residual)
           else bytes_through limiter_refilled (pri_ix IO_USER))
     /\ (e = Returned <-> residual = 0)
     /\ (e = Returned -> reqs s' = reqs limiter_refilled)
     /\ (e = Enqueued ->
           reqs s' = <[1%nat := mkReq residual residual]>
                       (reqs limiter_refilled)
           /\ queue_at s' 0 (pri_ix IO_USER)
              = queue_at limiter_refilled 0 (pri_ix IO_USER) ++ [1%nat])
     /\ ledger s' (pri_ix IO_USER)
        = Int64.add (ledger limiter_refilled (pri_ix IO_USER)) 1500000
     /\ (forall j, j <> pri_ix IO_USER ->
                   ledger s' j = ledger limiter_refilled j))
  /\ (exists s' g,
        grant_queue 3 0 3
          (queue_at (refill_start 100000 two_tenant_backlog) 0 3)
          (refill_start 100000 two_tenant_backlog) = Ok s'
        /\ queue_at (refill_start 100000 two_tenant_backlog) 0 3
           = g ++ queue_at s' 0 3
        /\ signals s'
           = signals (refill_start 100000 two_tenant_backlog)
             ++ (CvSignal <$> g)
        /\ bytes_through s' 3
           = foldl (fun t p =>
                      Int64.add t
                        (bytes_of (refill_start 100000 two_tenant_backlog) p))
               (bytes_through (refill_start 100000 two_tenant_backlog) 3) g
        /\ (forall j', j' <> 3 ->
              bytes_through s' j'
              = bytes_through (refill_start 100000 two_tenant_backlog) j')
        /\ (forall p,
              bytes_of s' p
              = bytes_of (refill_start 100000 two_tenant_backlog) p)
        /\ (forall p rest, queue_at s' 0 3 = p :: rest ->
              bucket s' 3 = 0 /\ 0 < demand_of s' p))
  /\ (exists s' g,
        grant_queue 3 0 3
          (queue_at (refill_start 100000 two_tenant_backlog) 0 3)
          (refill_start 100000 two_tenant_backlog) = Ok s'
        /\ queue_at (refill_start 100000 two_tenant_backlog) 0 3
           = g ++ queue_at s' 0 3
        /\ bytes_through s' 3
           = foldl (fun t p =>
                      Int64.add t
                        (bytes_of (refill_start 100000 two_tenant_backlog) p))
               (bytes_through (refill_start 100000 two_tenant_backlog) 3) g
        /\ (forall p, p ∈ g -> demand_of s' p = 0)
        /\ (forall p, p ∈ queue_at s' 0 3 ->
              0 < demand_of s' p
                <= demand_of (refill_start 100000 two_tenant_backlog) p)
        /\ bucket (refill_start 100000 two_tenant_backlog) 3 - bucket s' 3
           = sumZ (demand_of (refill_start 100000 two_tenant_backlog))
               (queue_at (refill_start 100000 two_tenant_backlog) 0 3)
             - sumZ (demand_of s')
                 (queue_at (refill_start 100000 two_tenant_backlog) 0 3))
  /\ (exists s',
        RefillBytesAndGrantRequestsLocked 100000 shuffled_order
          two_tenant_backlog = Ok s'
        /\ wf s'
        /\ (forall j, ledger s' j = ledger two_tenant_backlog j)
        /\ (forall p, bytes_of s' p = bytes_of two_tenant_backlog p)).
Proof.
  destruct granted_bytes_counted_once as (Henter & Hturn & Hgrant & Hrefill).
  split; [|split; [|split]].
  - apply Henter.
    + exact limiter_refilled_wf.
    + unfold kTGNumClients. lia.
    + discriminate.
    + reflexivity.
    + lia.
    + reflexivity.
  - apply Hturn.
    + exact (refill_start_wf 100000 two_tenant_backlog two_tenant_backlog_wf).
    + unfold kTGNumClients. lia.
    + unfold kTGNumClients. lia.
    + cbn. lia.
  - apply Hgrant.
    + exact two_tenant_backlog_refill_start_Inv.
    + unfold kTGNumClients. lia.
    + unfold kTGNumClients. lia.
    + cbn. lia.
  - apply Hrefill.
    + exact two_tenant_backlog_wf.
    + exact shuffled_order_permutation.
Defined.

(** The request of 1,500,000 bytes is charged the 1,000,000 bytes of the
    bucket at once and queued for 500,000; the turn of tenant 0 in the
    backlog grants record 5 and counts its 600,000 bytes, and gives record 6
    the 400,000 bytes that are left without counting them. *)
Example charge_and_grant_are_counted :
  ((fun '(e, s) => (e, bytes_through s 3, reqs s !! 1%nat))
     <$> Request_enter 0 1500000 IO_USER 1 limiter_refilled,
   (fun s => (signals s, bytes_through s 3, bucket s 3, reqs s !! 6%nat))
     <$> grant_queue 3 0 3
           (queue_at (refill_start 100000 two_tenant_backlog) 0 3)
           (refill_start 100000 two_tenant_backlog))
  = (Ok (Enqueued, 1000000, Some (mkReq 500000 500000)),
     Ok ([CvSignal 5], 600000, 0, Some (mkReq 200000 600000))).
Proof. vm_compute. reflexivity. Qed.

(** ** A new limiter and the refill *)

(** X3: for a rate and a period in the int64 range the constructor is
    defined unless auto-tuning halves a rate of 1 to 0, which makes the
    refill computation divide by zero.  The new limiter has the rate (halved
    if auto-tuned), the refill size that goes with it, every bucket and
    counter at zero, every queue empty and the first refill due at [now]. *)
Theorem new_limiter_starts_empty (rate period : Z) (auto_tuned : bool)
    (burst now : Z) :
  0 < rate <= Int64.max -> 0 < period <= Int64.max ->
  let rate' := if auto_tuned then rate / 2 else rate in
  (rate' = 0 ->
   MultiTenantRateLimiter_new rate period auto_tuned burst now = Undefined)
  /\ (rate' <> 0 ->
      exists s,
        MultiTenantRateLimiter_new rate period auto_tuned burst now = Ok s
        /\ wf s
        /\ rate_bytes_per_sec_ s = rate'
        /\ refill_bytes_per_period_ s
           = (if rate' * period <=? Int64.max
              then rate' * period / kMicrosecondsPerSecond
              else Int64.max / kMicrosecondsPerSecond)
        /\ raw_single_burst_bytes_ s = burst
        /\ next_refill_us_ s = now
        /\ stop_ s = false
        /\ (forall i, bucket s i = 0)
        /\ (forall j, bytes_through s j = 0)
        /\ (forall c j, queue_at s c j = [])
        /\ reqs s = ∅).
Proof.
  intros Hr Hp. cbv zeta.
  set (rate' := if auto_tuned then rate / 2 else rate).
  assert (0 <= rate' <= Int64.max) as Hr'.
  { subst rate'. destruct auto_tuned; [|lia].
    split; [apply Z.div_pos; lia|]. apply Z.div_le_upper_bound; lia. }
  split.
  - intros Z0. unfold MultiTenantRateLimiter_new.
    assert ((if auto_tuned then Int64.div rate 2 else Ok rate) = Ok rate')
      as -> by (subst rate'; destruct auto_tuned;
                [now apply half_rate|reflexivity]).
    cbn [mbind Res_bind]. rewrite Z0. reflexivity.
  - intros NZ.
    pose proof (CalculateRefill_value rate' period ltac:(lia) Hp) as E.
    assert (exists s,
              MultiTenantRateLimiter_new rate period auto_tuned burst now
              = Ok s) as [s Hs].
    { unfold MultiTenantRateLimiter_new.
      assert ((if auto_tuned then Int64.div rate 2 else Ok rate) = Ok rate')
        as -> by (subst rate'; destruct auto_tuned;
                  [now apply half_rate|reflexivity]).
      cbn [mbind Res_bind]. rewrite E. cbn [mbind Res_bind]. eauto. }
    exists s. split; [exact Hs|].
    pose proof (new_limiter_Inv rate period auto_tuned burst now s Hr Hp Hs)
      as I.
    destruct (new_limiter rate period auto_tuned burst now s Hr Hp Hs)
      as (_ & E' & Es).
    fold rate' in E', Es. rewrite E in E'. injection E' as E'.
    split; [apply (inv_wf s I)|].
    rewrite Es. st.
    repeat match goal with |- _ /\ _ => split end; try reflexivity.
    + now rewrite <- E'.
    + intros i. unfold bucket, arr_get. st.
      destruct ((0 <=? i) && (i <? Z.of_nat (length (replicate 5 0))));
        [|reflexivity].
      destruct (replicate 5 0 !! Z.to_nat i) as [a|] eqn:L; [|reflexivity].
      now apply lookup_replicate in L as [-> _].
    + intros j. unfold bytes_through, arr_get. st.
      destruct ((0 <=? j) && (j <? Z.of_nat (length (replicate 4 0))));
        [|reflexivity].
      destruct (replicate 4 0 !! Z.to_nat j) as [a|] eqn:L; [|reflexivity].
      now apply lookup_replicate in L as [-> _].
    + intros c j. apply queue_in_replicate_empty.
Qed.

Lemma new_limiter_starts_empty_witness :
  (1 / 2 = 0 ->
   MultiTenantRateLimiter_new 1 100000 true 0 0 = Undefined)
  /\ (10000000 <> 0 ->
      exists s,
        MultiTenantRateLimiter_new 10000000 100000 false 0 0 = Ok s
        /\ wf s
        /\ rate_bytes_per_sec_ s = 10000000
        /\ refill_bytes_per_period_ s
           = (if 10000000 * 100000 <=? Int64.max
              then 10000000 * 100000 / kMicrosecondsPerSecond
              else Int64.max / kMicrosecondsPerSecond)
        /\ raw_single_burst_bytes_ s = 0
        /\ next_refill_us_ s = 0
        /\ stop_ s = false
        /\ (forall i, bucket s i = 0)
        /\ (forall j, bytes_through s j = 0)
        /\ (forall c j, queue_at s c j = [])
        /\ reqs s = ∅).
Proof.
  split.
  - apply (new_limiter_starts_empty 1 100000 true 0 0);
      unfold Int64.max; lia.
  - apply (new_limiter_starts_empty 10000000 100000 false 0 0);
      unfold Int64.max; lia.
Defined.

(** ** Refill *)

(** X4: the tokens a bucket holds when the refill starts play no part in
    it: the refill of a limiter is the same whatever its buckets held. *)
Theorem refill_discards_leftover_tokens (now : Z) (client_order : list Z)
    (leftover : list Z) (s : State) :
  wf s -> length leftover = 5%nat ->
  RefillBytesAndGrantRequestsLocked now client_order
    (set_available_bytes_arr leftover s)
  = RefillBytesAndGrantRequestsLocked now client_order s.
Proof.
  intros W Hlen. unfold RefillBytesAndGrantRequestsLocked. cbv zeta.
  rewrite !reset_buckets by (st; assumption || apply (wf_available s W)).
  reflexivity.
Qed.

Lemma refill_discards_leftover_tokens_witness :
  RefillBytesAndGrantRequestsLocked 100000 identity_order
    (set_available_bytes_arr [5; 4; 3; 2; 1] queued_backlog)
  = RefillBytesAndGrantRequestsLocked 100000 identity_order queued_backlog.
Proof.
  apply (refill_discards_leftover_tokens 100000 identity_order [5; 4; 3; 2; 1]
           queued_backlog).
  - apply inv_wf, reachable_Inv, queued_backlog_reachable.
  - reflexivity.
Defined.

(** X5: in every state of a running limiter the refill is defined for every
    order of the tenants; afterwards every bucket holds between 0 and
    [refill_bytes_per_period_] tokens, the next refill is due at the 64-bit
    sum of [now] and the period, which is one period after [now] where that
    is an int64 value, and the rate, the stop flag and the request counters
    are as before. *)
Theorem refill_leaves_buckets_in_range (now : Z) (client_order : list Z)
    (s : State) :
  reachable s -> Permutation client_order clients_upward ->
  exists s',
    RefillBytesAndGrantRequestsLocked now client_order s = Ok s'
    /\ next_refill_us_ s' = Int64.add now (refill_period_us_ s)
    /\ (Int64.fits (now + refill_period_us_ s) = true ->
        next_refill_us_ s' = now + refill_period_us_ s)
    /\ (forall i, 0 <= bucket s' i <= refill_bytes_per_period_ s)
    /\ control s' = control s
    /\ total_requests_ s' = total_requests_ s.
Proof.
  intros R P.
  destruct (RefillBytesAndGrantRequestsLocked_Inv now client_order s
              (reachable_Inv s R) P) as (s' & E & I' & C & N & T & B).
  exists s'. repeat match goal with |- _ /\ _ => split end; try assumption.
  - intros Hfit. rewrite N. now apply add_fits.
  - intros i. split; [apply (inv_buckets s' I')|apply B].
Qed.

Lemma refill_leaves_buckets_in_range_witness :
  exists s',
    RefillBytesAndGrantRequestsLocked 100000 shuffled_order queued_backlog
    = Ok s'
    /\ next_refill_us_ s'
       = Int64.add 100000 (refill_period_us_ queued_backlog)
    /\ (Int64.fits (100000 + refill_period_us_ queued_backlog) = true ->
        next_refill_us_ s' = 100000 + refill_period_us_ queued_backlog)
    /\ (forall i, 0 <= bucket s' i <= refill_bytes_per_period_ queued_backlog)
    /\ control s' = control queued_backlog
    /\ total_requests_ s' = total_requests_ queued_backlog.
Proof.
  apply (refill_leaves_buckets_in_range 100000 shuffled_order queued_backlog).
  - exact queued_backlog_reachable.
  - exact shuffled_order_permutation.
Defined.

(** X6: a change of the rate takes effect at the next refill: the call
    stores the rate and the refill size that goes with it and leaves the
    buckets and the queues alone; the refill that follows leaves every
    bucket between 0 and the new refill size. *)
Theorem SetBytesPerSecond_takes_effect_at_refill (bytes_per_second now : Z)
    (client_order : list Z) (s : State) :
  reachable s -> 0 < bytes_per_second <= Int64.max ->
  Permutation client_order clients_upward ->
  exists s1 s2,
    SetBytesPerSecond bytes_per_second s = Ok s1
    /\ rate_bytes_per_sec_ s1 = bytes_per_second
    /\ refill_bytes_per_period_ s1
       = (if bytes_per_second * refill_period_us_ s <=? Int64.max
          then bytes_per_second * refill_period_us_ s / kMicrosecondsPerSecond
          else Int64.max / kMicrosecondsPerSecond)
    /\ available_bytes_arr_ s1 = available_bytes_arr_ s
    /\ multi_tenant_queue_ s1 = multi_tenant_queue_ s
    /\ RefillBytesAndGrantRequestsLocked now client_order s1 = Ok s2
    /\ (forall i, 0 <= bucket s2 i <= refill_bytes_per_period_ s1).
Proof.
  intros R Hn P. pose proof (reachable_Inv s R) as I.
  pose proof (CalculateRefill_value bytes_per_second (refill_period_us_ s)
                Hn (inv_period s I)) as E.
  assert (SetBytesPerSecond bytes_per_second s
          = Ok (set_rate bytes_per_second
                  (if bytes_per_second * refill_period_us_ s <=? Int64.max
                   then bytes_per_second * refill_period_us_ s
                        / kMicrosecondsPerSecond
                   else Int64.max / kMicrosecondsPerSecond) s)) as Hset
    by (unfold SetBytesPerSecond; now rewrite E).
  pose proof (SetBytesPerSecond_Inv _ _ _ I Hn Hset) as I1.
  destruct (RefillBytesAndGrantRequestsLocked_Inv now client_order _ I1 P)
    as (s2 & E2 & I2 & _ & _ & _ & B).
  eexists _, s2. split; [exact Hset|].
  repeat match goal with |- _ /\ _ => split end; try reflexivity.
  - exact E2.
  - intros i. split; [apply (inv_buckets s2 I2)|apply B].
Qed.

Lemma SetBytesPerSecond_takes_effect_at_refill_witness :
  exists s1 s2,
    SetBytesPerSecond 2000000 queued_backlog = Ok s1
    /\ rate_bytes_per_sec_ s1 = 2000000
    /\ refill_bytes_per_period_ s1
       = (if 2000000 * refill_period_us_ queued_backlog <=? Int64.max
          then 2000000 * refill_period_us_ queued_backlog
               / kMicrosecondsPerSecond
          else Int64.max / kMicrosecondsPerSecond)
    /\ available_bytes_arr_ s1 = available_bytes_arr_ queued_backlog
    /\ multi_tenant_queue_ s1 = multi_tenant_queue_ queued_backlog
    /\ RefillBytesAndGrantRequestsLocked 100000 identity_order s1 = Ok s2
    /\ (forall i, 0 <= bucket s2 i <= refill_bytes_per_period_ s1).
Proof.
  apply (SetBytesPerSecond_takes_effect_at_refill 2000000 100000
           identity_order queued_backlog).
  - exact queued_backlog_reachable.
  - unfold Int64.max. lia.
  - exact identity_order_permutation.
Defined.

(** X7: a turn of the grant loop takes from the bucket exactly what it takes
    off the demand of the records of its queue: the bucket never grows and
    never falls below 0, the records it pops are left with no demand, and a
    record it leaves queued keeps a positive demand, no larger than
    before. *)
Theorem grant_turn_conserves_tokens (i c j : Z) (s : State) :
  Inv s -> 0 <= i < 5 -> 0 <= c < 5 -> 0 <= j < 4 ->
  exists s' g,
    grant_queue i c j (queue_at s c j) s = Ok s'
    /\ queue_at s c j = g ++ queue_at s' c j
    /\ bucket s i - bucket s' i
       = sumZ (demand_of s) (queue_at s c j)
         - sumZ (demand_of s') (queue_at s c j)
    /\ 0 <= bucket s' i <= bucket s i
    /\ (forall p, p ∈ g -> demand_of s' p = 0)
    /\ (forall p, p ∈ queue_at s' c j -> 0 < demand_of s' p <= demand_of s p)
    /\ (forall p, p ∉ queue_at s c j -> reqs s' !! p = reqs s !! p).
Proof.
  intros I Hi Hc Hj.
  destruct (grant_queue_demand i c j Hi Hc Hj (queue_at s c j) s
              (inv_wf s I) eq_refl (inv_nodup s I c j))
    as (s' & g & E & T & C & N & TR & U & G & P & K & Bd).
  { intros p Hp. eapply inv_queued; eauto. }
  { apply (inv_buckets s I). }
  exists s', g.
  repeat match goal with |- _ /\ _ => split end; try assumption; try lia.
  apply (qt_queue _ _ _ _ _ _ T).
Qed.

Lemma grant_turn_conserves_tokens_witness :
  exists s' g,
    grant_queue 3 0 3 (queue_at (refill_start 100000 two_tenant_backlog) 0 3)
      (refill_start 100000 two_tenant_backlog) = Ok s'
    /\ queue_at (refill_start 100000 two_tenant_backlog) 0 3
       = g ++ queue_at s' 0 3
    /\ bucket (refill_start 100000 two_tenant_backlog) 3 - bucket s' 3
       = sumZ (demand_of (refill_start 100000 two_tenant_backlog))
           (queue_at (refill_start 100000 two_tenant_backlog) 0 3)
         - sumZ (demand_of s')
             (queue_at (refill_start 100000 two_tenant_backlog) 0 3)
    /\ 0 <= bucket s' 3 <= bucket (refill_start 100000 two_tenant_backlog) 3
    /\ (forall p, p ∈ g -> demand_of s' p = 0)
    /\ (forall p, p ∈ queue_at s' 0 3 ->
          0 < demand_of s' p
            <= demand_of (refill_start 100000 two_tenant_backlog) p)
    /\ (forall p,
          p ∉ queue_at (refill_start 100000 two_tenant_backlog) 0 3 ->
          reqs s' !! p = reqs (refill_start 100000 two_tenant_backlog) !! p).
Proof.
  apply (grant_turn_conserves_tokens 3 0 3
           (refill_start 100000 two_tenant_backlog)); try lia.
  exact two_tenant_backlog_refill_start_Inv.
Defined.

(** In that turn the bucket of 1,000,000 bytes pays the 600,000 bytes of
    record 5, which is popped, and 400,000 of the 600,000 bytes of record 6,
    which stays queued for 200,000. *)
Example turn_grants_in_full_and_in_part :
  (fun s' =>
     (bucket (refill_start 100000 two_tenant_backlog) 3, bucket s' 3,
      queue_at (refill_start 100000 two_tenant_backlog) 0 3, queue_at s' 0 3,
      demand_of s' 5, demand_of s' 6))
    <$> grant_queue 3 0 3
          (queue_at (refill_start 100000 two_tenant_backlog) 0 3)
          (refill_start 100000 two_tenant_backlog)
  = Ok (1000000, 0, [5%nat; 6%nat], [6%nat], 0, 200000).
Proof. vm_compute. reflexivity. Qed.

(** ** What holds in every state of a running limiter *)

(** X8: the invariant the source states after the coordinator loop.  In
    every state of a running limiter a record whose demand has reached 0 is
    in no queue, and a record with demand left is in one queue, once. *)
Theorem pending_requests_are_queued_once (s : State) (p : nat) (r : Req) :
  reachable s -> reqs s !! p = Some r ->
  0 <= request_bytes r
  /\ (request_bytes r = 0 -> forall c j, p ∉ queue_at s c j)
  /\ (0 < request_bytes r ->
      exists c j before after,
        queue_at s c j = before ++ p :: after
        /\ (p ∉ before) /\ (p ∉ after)
        /\ forall c' j', p ∈ queue_at s c' j' -> c' = c /\ j' = j).
Proof.
  intros R Hr. pose proof (reachable_Inv s R) as I.
  destruct (inv_pending s I p r Hr) as [H0 Hq].
  split; [exact H0|]. split.
  - intros Z0 c j Hin. pose proof (inv_queued s I c j p Hin) as Hpos.
    unfold demand_of in Hpos. rewrite Hr in Hpos. lia.
  - intros Hpos. destruct (Hq Hpos) as (c & j & Hin).
    destruct (list_elem_of_split _ _ Hin) as (before & after & E).
    exists c, j, before, after. split; [exact E|].
    pose proof (inv_nodup s I c j) as Hnd. rewrite E in Hnd.
    apply NoDup_app in Hnd as (_ & Hba & Hnd).
    apply NoDup_cons in Hnd as [Ha _].
    repeat split.
    + intros Hb. apply (Hba p Hb). left.
    + exact Ha.
    + destruct (inv_once s I c' j' c j p H Hin). assumption.
    + destruct (inv_once s I c' j' c j p H Hin). assumption.
Qed.

Lemma pending_requests_are_queued_once_witness :
  0 <= request_bytes (Req_new 500000)
  /\ (request_bytes (Req_new 500000) = 0 ->
      forall c j, 2%nat ∉ queue_at queued_backlog c j)
  /\ (0 < request_bytes (Req_new 500000) ->
      exists c j before after,
        queue_at queued_backlog c j = before ++ 2%nat :: after
        /\ (2%nat ∉ before) /\ (2%nat ∉ after)
        /\ forall c' j', 2%nat ∈ queue_at queued_backlog c' j' ->
                         c' = c /\ j' = j).
Proof.
  apply (pending_requests_are_queued_once queued_backlog 2 (Req_new 500000)).
  - exact queued_backlog_reachable.
  - vm_compute. reflexivity.
Defined.



(** X10: in every state of a running limiter the refill size is the one
    computed from the current rate and the period: the rate times the period
    over 1e6, or [INT64_MAX / 1e6] where that product leaves the int64
    range. *)
Theorem refill_size_follows_rate (s : State) :
  reachable s ->
  0 < rate_bytes_per_sec_ s <= Int64.max
  /\ 0 < refill_period_us_ s <= Int64.max
  /\ refill_bytes_per_period_ s
     = (if rate_bytes_per_sec_ s * refill_period_us_ s <=? Int64.max
        then rate_bytes_per_sec_ s * refill_period_us_ s
             / kMicrosecondsPerSecond
        else Int64.max / kMicrosecondsPerSecond).
Proof.
  intros R. pose proof (reachable_Inv s R) as I.
  split; [apply (inv_rate s I)|]. split; [apply (inv_period s I)|].
  pose proof (inv_refill s I) as E.
  rewrite (CalculateRefill_value _ _ (inv_rate s I) (inv_period s I)) in E.
  now injection E.
Qed.

Lemma refill_size_follows_rate_witness :
  0 < rate_bytes_per_sec_ queued_backlog <= Int64.max
  /\ 0 < refill_period_us_ queued_backlog <= Int64.max
  /\ refill_bytes_per_period_ queued_backlog
     = (if rate_bytes_per_sec_ queued_backlog
           * refill_period_us_ queued_backlog <=? Int64.max
        then rate_bytes_per_sec_ queued_backlog
             * refill_period_us_ queued_backlog / kMicrosecondsPerSecond
        else Int64.max / kMicrosecondsPerSecond).
Proof.
  apply (refill_size_follows_rate queued_backlog).
  exact queued_backlog_reachable.
Defined.

(** ** Shutdown *)

(** X11: in every state of a running limiter the legacy queues the
    destructor reads are empty, whatever is queued in
    [multi_tenant_queue_]: the destructor sets the stop flag, counts no
    request to wait for, signals no record and does not wait. *)
Theorem destructor_finds_no_request (s : State) :
  reachable s ->
  exists s',
    Destructor_enter s = Ok s'
    /\ stop_ s' = true
    /\ requests_to_wait_ s' = 0
    /\ Destructor_waits s' = false
    /\ signals s' = signals s
    /\ multi_tenant_queue_ s' = multi_tenant_queue_ s
    /\ reqs s' = reqs s.
Proof.
  intros R. pose proof (reachable_Inv s R) as I.
  rewrite (Destructor_enter_legacy_empty s (inv_legacy s I)).
  eexists. split; [reflexivity|]. repeat split.
Qed.

Lemma destructor_finds_no_request_witness :
  exists s',
    Destructor_enter queued_backlog = Ok s'
    /\ stop_ s' = true
    /\ requests_to_wait_ s' = 0
    /\ Destructor_waits s' = false
    /\ signals s' = signals queued_backlog
    /\ multi_tenant_queue_ s' = multi_tenant_queue_ queued_backlog
    /\ reqs s' = reqs queued_backlog.
Proof.
  apply (destructor_finds_no_request queued_backlog).
  exact queued_backlog_reachable.
Defined.

(** ** A request and the other tenants *)

(** X12: what a request of a valid tenant charges on entry.  The charge is
    the smaller of the tenant's bucket and the bytes asked for if the bucket
    holds anything, and nothing otherwise; it is taken from the tenant's
    bucket and added to [total_bytes_through_[pri]] by a 64-bit addition,
    which gives the sum where that is an int64 value, and the call returns
    at once exactly when the charge covers the bytes.  The buckets and the
    queues of the other tenants, and the other queues of this tenant, are
    as they were. *)
Theorem request_charges_its_tenant_only (c bytes : Z) (pri : IOPriority)
    (req : nat) (s : State) :
  wf s -> 0 <= c < kTGNumClients -> pri <> IO_TOTAL -> stop_ s = false ->
  let charge := if 0 <? bucket s c
                then Z.min (bucket s c) (Z.max 0 bytes) else 0 in
  exists e s',
    Request_enter c bytes pri req s = Ok (e, s')
    /\ bucket s' c = bucket s c - charge
    /\ bytes_through s' (pri_ix pri)
       = (if 0 <? bucket s c
          then Int64.add (bytes_through s (pri_ix pri)) charge
          else bytes_through s (pri_ix pri))
    /\ (Int64.fits (bytes_through s (pri_ix pri) + charge) = true ->
        bytes_through s' (pri_ix pri) = bytes_through s (pri_ix pri) + charge)
    /\ (e = Returned <-> Z.max 0 bytes = charge)
    /\ (forall i, i <> c -> bucket s' i = bucket s i)
    /\ (forall j, j <> pri_ix pri -> bytes_through s' j = bytes_through s j)
    /\ (forall c' j, (c', j) <> (c, pri_ix pri) ->
          queue_at s' c' j = queue_at s c' j)
    /\ next_refill_us_ s' = next_refill_us_ s
    /\ control s' = control s.
Proof.
  intros W Hc Hp Hstop. cbv zeta. unfold kTGNumClients in Hc.
  destruct (Request_enter_turn c (Z.max 0 bytes) pri req s W Hc Hp Hstop
              ltac:(lia))
    as (e & s' & residual & E & W' & _ & Hres & _ & TO & _ & H0 & H1).
  rewrite Request_enter_max in E.
  assert (c <> kClientInvalid) as Hni by (unfold kClientInvalid; lia).
  pose proof (Request_enter_frame _ _ _ _ _ _ _ Hni Hstop E) as F.
  cbv zeta in F.
  destruct (Z.eqb_spec c (-1)) as [?|_]; [lia|].
  destruct F as (C & N & _ & Bo & Bc & T & Ret).
  exists e, s'. split; [exact E|].
  repeat match goal with |- _ /\ _ => split end; try assumption.
  - rewrite T. destruct (0 <? bucket s c).
    + apply add_fits.
    + intros _. lia.
  - rewrite Ret. lia.
  - intros c' j Hne. destruct (Z.eq_dec residual 0) as [Zr|NZr].
    + destruct (H0 Zr) as (_ & _ & Q). unfold queue_at. now rewrite Q.
    + destruct (H1 NZr) as (_ & _ & _ & O). now apply O.
Qed.

Lemma request_charges_its_tenant_only_witness :
  let charge := if 0 <? bucket limiter_refilled 2
                then Z.min (bucket limiter_refilled 2) (Z.max 0 1000) else 0 in
  exists e s',
    Request_enter 2 1000 IO_USER 9 limiter_refilled = Ok (e, s')
    /\ bucket s' 2 = bucket limiter_refilled 2 - charge
    /\ bytes_through s' (pri_ix IO_USER)
       = (if 0 <? bucket limiter_refilled 2
          then Int64.add (bytes_through limiter_refilled (pri_ix IO_USER))
                 charge
          else bytes_through limiter_refilled (pri_ix IO_USER))
    /\ (Int64.fits (bytes_through limiter_refilled (pri_ix IO_USER) + charge)
        = true ->
        bytes_through s' (pri_ix IO_USER)
        = bytes_through limiter_refilled (pri_ix IO_USER) + charge)
    /\ (e = Returned <-> Z.max 0 1000 = charge)
    /\ (forall i, i <> 2 -> bucket s' i = bucket limiter_refilled i)
    /\ (forall j, j <> pri_ix IO_USER ->
                  bytes_through s' j = bytes_through limiter_refilled j)
    /\ (forall c' j, (c', j) <> (2, pri_ix IO_USER) ->
          queue_at s' c' j = queue_at limiter_refilled c' j)
    /\ next_refill_us_ s' = next_refill_us_ limiter_refilled
    /\ control s' = control limiter_refilled.
Proof.
  apply (request_charges_its_tenant_only 2 1000 IO_USER 9 limiter_refilled).
  - exact limiter_refilled_wf.
  - unfold kTGNumClients. lia.
  - discriminate.
  - reflexivity.
Defined.

(** ** A pass of the refill and the other tenants *)

(** X13: the pass of the refill at position [i] of the order serves the
    queues of the tenant [client_order[i]] and draws from the bucket [i]:
    the queues of the other tenants and the buckets at the other positions
    are as they were, and the bucket [i] does not grow nor fall below 0. *)
Theorem pass_serves_one_tenant_from_one_bucket (client_order : list Z)
    (i c : Z) (s : State) :
  Inv s -> Permutation client_order clients_upward -> 0 <= i < 5 ->
  arr_get client_order i = Ok c ->
  exists s',
    grant_client client_order i s = Ok s'
    /\ (forall c' j, c' <> c -> queue_at s' c' j = queue_at s c' j)
    /\ (forall i', i' <> i -> bucket s' i' = bucket s i')
    /\ 0 <= bucket s' i <= bucket s i.
Proof.
  intros I P Hi Hord.
  destruct (client_order_entry client_order i P Hi) as (c0 & Hord0 & Hc).
  rewrite Hord in Hord0. injection Hord0 as <-.
  destruct (grant_client_Inv client_order i s P Hi I)
    as (s' & E & I' & _ & _ & _ & Bo & Bi).
  destruct (grant_client_turns client_order i c s (inv_wf s I) Hi Hord Hc)
    as (sU & sH & sM & sL & gU & gH & gM & gL
        & _ & _ & _ & _ & EL & TU & TH & TM & TL & _).
  rewrite E in EL. injection EL as <-.
  exists s'. split; [exact E|].
  repeat match goal with |- _ /\ _ => split end; try assumption.
  - intros c' j Hne.
    assert (forall j0 : Z, (c', j) <> (c, j0)) as Hd
      by (intros j0 [= ? ?]; contradiction).
    rewrite (qt_other _ _ _ _ _ _ TL c' j (Hd _)),
      (qt_other _ _ _ _ _ _ TM c' j (Hd _)),
      (qt_other _ _ _ _ _ _ TH c' j (Hd _)),
      (qt_other _ _ _ _ _ _ TU c' j (Hd _)).
    reflexivity.
  - apply (inv_buckets s' I').
Qed.

Lemma pass_serves_one_tenant_from_one_bucket_witness :
  exists s',
    grant_client shuffled_order 0 (refill_start 100000 two_tenant_backlog)
    = Ok s'
    /\ (forall c' j, c' <> 3 ->
          queue_at s' c' j
          = queue_at (refill_start 100000 two_tenant_backlog) c' j)
    /\ (forall i', i' <> 0 ->
          bucket s' i' = bucket (refill_start 100000 two_tenant_backlog) i')
    /\ 0 <= bucket s' 0
         <= bucket (refill_start 100000 two_tenant_backlog) 0.
Proof.
  apply (pass_serves_one_tenant_from_one_bucket shuffled_order 0 3
           (refill_start 100000 two_tenant_backlog)).
  - exact two_tenant_backlog_refill_start_Inv.
  - exact shuffled_order_permutation.
  - lia.
  - reflexivity.
Defined.

(** In that pass tenant 3 is served from the bucket at position 0: its
    records 3, 4 and 2 are granted and the bucket is emptied, while the
    queue of tenant 0 and the other buckets are as they were. *)
Example pass_of_tenant_3 :
  (fun s' => (new_signals (refill_start 100000 two_tenant_backlog) s',
              available_bytes_arr_ s', queue_at s' 0 3))
    <$> grant_client shuffled_order 0 (refill_start 100000 two_tenant_backlog)
  = Ok ([CvSignal 3; CvSignal 4; CvSignal 2],
        [0; 1000000; 1000000; 1000000; 1000000], [5%nat; 6%nat]).
Proof. vm_compute. reflexivity. Qed.

(** ** The hand-off in general *)

Lemma first_front_row (q0 q1 q2 q3 : list nat) :
  first_front [q0; q1; q2; q3] priorities_downward
  = match q3, q2, q1, q0 with
    | p :: _, _, _, _ => Some p
    | [], p :: _, _, _ => Some p
    | [], [], p :: _, _ => Some p
    | [], [], [], p :: _ => Some p
    | [], [], [], [] => None
    end.
Proof.
  change priorities_downward with [3; 2; 1; 0].
  destruct q3, q2, q1, q0; reflexivity.
Qed.

Lemma queue_at_row (s : State) (c : Z) (q0 q1 q2 q3 : list nat) :
  arr_get (multi_tenant_queue_ s) c = Ok [q0; q1; q2; q3] ->
  forall j,
    queue_at s c j
    = if j =? 0 then q0 else if j =? 1 then q1 else if j =? 2 then q2
      else if j =? 3 then q3 else [].
Proof.
  intros E j. unfold queue_at, queue_in. rewrite E. cbn [mbind Res_bind].
  destruct (Z.eqb_spec j 0) as [->|?]; [reflexivity|].
  destruct (Z.eqb_spec j 1) as [->|?]; [reflexivity|].
  destruct (Z.eqb_spec j 2) as [->|?]; [reflexivity|].
  destruct (Z.eqb_spec j 3) as [->|?]; [reflexivity|].
  unfold arr_get. cbn [length].
  destruct (Z.leb_spec 0 j); [|reflexivity].
  destruct (Z.ltb_spec j (Z.of_nat 4)); [lia|reflexivity].
Qed.

(** X14: the hand-off after a grant signals, tenant by tenant in index
    order, the front of the highest non-empty priority queue of every
    tenant that has a queued request, one record for each such tenant, and
    changes nothing but the signal log; a tenant with no queued request
    gets no signal. *)
Theorem handoff_signals_front_of_each_tenant (s : State) :
  wf s ->
  signal_front_requests s
  = Ok (emit_all (CvSignal <$> omap (handoff_front s) clients_upward) s)
  /\ forall c, 0 <= c < kTGNumClients ->
       (handoff_front s c = None <-> forall j, queue_at s c j = [])
       /\ (forall p, handoff_front s c = Some p ->
             exists j rest,
               queue_at s c j = p :: rest
               /\ forall j', j < j' -> queue_at s c j' = []).
Proof.
  intros W. split; [now apply signal_front_requests_fronts|].
  intros c Hc. unfold kTGNumClients in Hc.
  destruct (arr_get_in_range (multi_tenant_queue_ s) c) as [row Hrow];
    [rewrite (wf_mtq s W); lia|].
  assert (length row = 4%nat) as Hlen.
  { pose proof (wf_rows s W) as Hrows.
    apply arr_get_Ok in Hrow as [_ Hrow'].
    eapply Forall_lookup_1 in Hrows; eauto. }
  destruct row as [|q0 [|q1 [|q2 [|q3 [|q4 row]]]]]; try discriminate.
  pose proof (queue_at_row s c q0 q1 q2 q3 Hrow) as Q.
  unfold handoff_front. rewrite Hrow, first_front_row.
  split.
  - split.
    + intros H j. rewrite Q.
      destruct q3, q2, q1, q0; try discriminate.
      repeat destruct (_ =? _); reflexivity.
    + intros H.
      pose proof (H 0) as H0. pose proof (H 1) as H1.
      pose proof (H 2) as H2. pose proof (H 3) as H3.
      rewrite Q in H0, H1, H2, H3. cbn in H0, H1, H2, H3.
      now subst.
  - intros p Hp.
    destruct q3 as [|p3 r3].
    2: { injection Hp as <-. exists 3, r3. rewrite Q. split; [reflexivity|].
         intros j' Hj'. rewrite Q.
         destruct (Z.eqb_spec j' 0); [lia|]. destruct (Z.eqb_spec j' 1); [lia|].
         destruct (Z.eqb_spec j' 2); [lia|]. destruct (Z.eqb_spec j' 3); [lia|].
         reflexivity. }
    destruct q2 as [|p2 r2].
    2: { injection Hp as <-. exists 2, r2. rewrite Q. split; [reflexivity|].
         intros j' Hj'. rewrite Q.
         destruct (Z.eqb_spec j' 0); [lia|]. destruct (Z.eqb_spec j' 1); [lia|].
         destruct (Z.eqb_spec j' 2); [lia|]. destruct (Z.eqb_spec j' 3);
           reflexivity. }
    destruct q1 as [|p1 r1].
    2: { injection Hp as <-. exists 1, r1. rewrite Q. split; [reflexivity|].
         intros j' Hj'. rewrite Q.
         destruct (Z.eqb_spec j' 0); [lia|]. destruct (Z.eqb_spec j' 1); [lia|].
         destruct (Z.eqb_spec j' 2); [reflexivity|].
         destruct (Z.eqb_spec j' 3); reflexivity. }
    destruct q0 as [|p0 r0]; [discriminate|].
    injection Hp as <-. exists 0, r0. rewrite Q. split; [reflexivity|].
    intros j' Hj'. rewrite Q.
    destruct (Z.eqb_spec j' 0); [lia|]. destruct (Z.eqb_spec j' 1);
      [reflexivity|].
    destruct (Z.eqb_spec j' 2); [reflexivity|].
    destruct (Z.eqb_spec j' 3); reflexivity.
Qed.

Lemma handoff_signals_front_of_each_tenant_witness :
  signal_front_requests queued_backlog
  = Ok (emit_all
          (CvSignal <$> omap (handoff_front queued_backlog) clients_upward)
          queued_backlog)
  /\ forall c, 0 <= c < kTGNumClients ->
       (handoff_front queued_backlog c = None
        <-> forall j, queue_at queued_backlog c j = [])
       /\ (forall p, handoff_front queued_backlog c = Some p ->
             exists j rest,
               queue_at queued_backlog c j = p :: rest
               /\ forall j', j < j' -> queue_at queued_backlog c j' = []).
Proof.
  apply (handoff_signals_front_of_each_tenant queued_backlog).
  apply inv_wf, reachable_Inv, queued_backlog_reachable.
Defined.

(** In the backlog the hand-off signals record 4 of tenant 0 and record 2,
    the USER request of tenant 3. *)
Example handoff_in_the_backlog :
  omap (handoff_front queued_backlog) clients_upward = [4%nat; 2%nat].
Proof. vm_compute. reflexivity. Qed.
